(** * kissStepper: a shallow embedding of the step/dir motion controller

    The embedding follows [src/kissStepper.cpp].  The two controllers of the
    source ([kissStepperNoAccel] and its subclass [kissStepper]) share one
    record of member variables; the functions of the base class only touch
    the members the base class declares.

    Numeric conventions
    - [uint32_t] and [int32_t] values are integers of [Z]; every place where
      the C++ code can wrap around has [to_uint32] or [to_int32] written out.
    - [float] and [double] values are rationals of [Q]; every operation
      rounds its result to 24, respectively 53, significant bits (to
      nearest, ties to even), so the values are those of the binary formats.
      The conversion of a [float] to an unsigned integer truncates toward
      zero, as the C++ conversion does. *)

From Stdlib Require Import ZArith QArith Qround Qpower Bool List Lia Lqa.
Import ListNotations.
Local Open Scope Z_scope.

(** [lia] reads [/] and [mod] through their Euclidean equations. *)
Ltac Zify.zify_post_hook ::= Z.to_euclidean_division_equations.

(** ** Machine integers *)

Definition to_uint32 (x : Z) : Z := x mod 2 ^ 32.
Definition to_int32 (x : Z) : Z := (x + 2 ^ 31) mod 2 ^ 32 - 2 ^ 31.

Definition is_uint16 (x : Z) : Prop := 0 <= x < 2 ^ 16.
Definition is_uint32 (x : Z) : Prop := 0 <= x < 2 ^ 32.
Definition is_int32 (x : Z) : Prop := - 2 ^ 31 <= x < 2 ^ 31.

(** ** Floating point values *)

(** A [float] is a rational that the binary format of 24 significant bits
    holds, a [double] one that the format of 53 significant bits holds.
    Every arithmetic operation rounds its exact result to the format, to
    the nearest value and on a tie to the even significand, as the
    hardware and the C library do.  [double] is the format of the 32-bit
    boards; on the 8-bit boards the compiler gives [double] the format of
    [float].  The range of the exponent is not modelled: there is no
    overflow to infinity and there are no subnormal values.  The intervals
    of a planned ramp lie between 1 and 10^6 and the multiplier is at least
    10^-12, far inside the range. *)
Definition float : Type := Q.
Definition double : Type := Q.

Definition pow2 (e : Z) : Q := ((2 # 1) ^ e)%Q.

(** Rounding of a rational to the nearest integer, ties to even. *)
Definition round_half_even (q : Q) : Z :=
  let f := Qfloor q in
  match (q - inject_Z f ?= 1 # 2)%Q with
  | Lt => f
  | Gt => f + 1
  | Eq => if Z.even f then f else f + 1
  end.

(** The exponent [e] of the last place of a positive rational [q] written
    with [prec] significant bits: [2^(prec-1) * 2^e <= q < 2^prec * 2^e]. *)
Definition ulp_exp (prec : Z) (q : Q) : Z :=
  let e := Z.log2 (Qnum q) - Z.log2 (Zpos (Qden q)) - prec in
  if Qlt_le_dec q (pow2 (prec + e)) then e else e + 1.


Definition round_pos (prec : Z) (q : Q) : Q :=
  let e := ulp_exp prec q in
  Qred (inject_Z (round_half_even (q / pow2 e)) * pow2 e).

(** Rounding to [prec] significant bits. *)
Definition round_binary (prec : Z) (q : Q) : Q :=
  match (q ?= 0)%Q with
  | Eq => 0%Q
  | Gt => round_pos prec q
  | Lt => (- round_pos prec (- q))%Q
  end.

Definition to_float (q : Q) : float := round_binary 24 q.
Definition to_double (q : Q) : double := round_binary 53 q.

Definition fmul (a b : float) : float := to_float (a * b).
Definition fadd (a b : float) : float := to_float (a + b).
Definition fsub (a b : float) : float := to_float (a - b).
Definition fdiv (a b : float) : float := to_float (a / b).
Definition float_of_Z (x : Z) : float := to_float (inject_Z x).

Definition dmul (a b : double) : double := to_double (a * b).
Definition ddiv (a b : double) : double := to_double (a / b).
Definition double_of_Z (x : Z) : double := to_double (inject_Z x).
Definition float_of_double (d : double) : float := to_float d.

(** Conversion of a [float] to [uint32_t]: the fractional part is discarded
    (truncation toward zero). *)
Definition Qtrunc (q : Q) : Z := Z.quot (Qnum q) (Zpos (Qden q)).
Definition float_to_uint32 (q : float) : Z := to_uint32 (Qtrunc q).

(** [sqrt] of the C library, on a [double]: the square root is taken on a
    grid of 2^-128, rounded down, and the result is rounded to the
    format. *)
Definition sqrt_double (q : double) : double :=
  to_double (Z.sqrt (Qfloor (q * inject_Z (2 ^ 256))) # 2 ^ 128).


(** Rounding of a rational to the nearest integer, ties upward: the reading
    of "rounded to the nearest whole microsecond" used by the statements
    below. *)
Definition round_half_up (q : Q) : Z := Qfloor (q + (1 # 2))%Q.

(** ** Controller state *)

Inductive kissState_t : Type :=
| STATE_STOPPED
| STATE_STARTING
| STATE_RUN
| STATE_ACCEL
| STATE_DECEL.

(** Modelled from the spec: the enumeration [kissState_t] is declared in
    [kissStepper.h], which is not part of the sources.  The code compares
    states with [>]: the three moving phases are the states greater than
    [STATE_STARTING], and [STATE_STOPPED] is not. *)
Definition state_code (st : kissState_t) : Z :=
  match st with
  | STATE_STOPPED => 0
  | STATE_STARTING => 1
  | STATE_RUN => 2
  | STATE_ACCEL => 3
  | STATE_DECEL => 4
  end.

Definition state_eqb (a b : kissState_t) : bool := state_code a =? state_code b.
Definition state_gtb (a b : kissState_t) : bool := state_code b <? state_code a.

(** Modelled from the spec: the constant [ONE_SECOND] of [kissStepper.h],
    the number of microseconds in a second. *)
Definition ONE_SECOND : Z := 1000000.

(** The member variables of [kissStepper] (those of [kissStepperNoAccel]
    included).  [pulses] is a ghost counter of the pulses written to the
    STEP pin; it stands for the output port of the source. *)
Record kissStepper : Type := mkStepper {
  m_forwardLimit : Z;          (* int32_t *)
  m_reverseLimit : Z;          (* int32_t *)
  m_maxSpeed : Z;              (* uint16_t, steps per second *)
  m_accel : Z;                 (* uint16_t, steps per second per second *)
  m_enabled : bool;
  m_forwards : bool;
  m_kissState : kissState_t;
  m_pos : Z;                   (* int32_t *)
  m_distMoved : Z;             (* uint32_t *)
  m_distTotal : Z;             (* uint32_t *)
  m_distAccel : Z;             (* uint32_t *)
  m_distRun : Z;               (* uint32_t *)
  m_stepIntervalWhole : Z;     (* uint32_t, microseconds *)
  m_stepInterval : float;      (* microseconds *)
  m_constMult : float;
  m_maxSpeedStepInterval : Z;  (* microseconds *)
  m_lastStepTime : Z;          (* uint32_t, microseconds *)
  pulses : Z
}.

(** Assignments to single members. *)
Definition set_maxSpeed (v : Z) (s : kissStepper) : kissStepper :=
  let (a, b, _, d, e, f, g, h, i, j, k, l, m, n, o, p, q, r) := s in
  mkStepper a b v d e f g h i j k l m n o p q r.
Definition set_accel (v : Z) (s : kissStepper) : kissStepper :=
  let (a, b, c, _, e, f, g, h, i, j, k, l, m, n, o, p, q, r) := s in
  mkStepper a b c v e f g h i j k l m n o p q r.
Definition set_enabled (v : bool) (s : kissStepper) : kissStepper :=
  let (a, b, c, d, _, f, g, h, i, j, k, l, m, n, o, p, q, r) := s in
  mkStepper a b c d v f g h i j k l m n o p q r.
Definition set_forwards (v : bool) (s : kissStepper) : kissStepper :=
  let (a, b, c, d, e, _, g, h, i, j, k, l, m, n, o, p, q, r) := s in
  mkStepper a b c d e v g h i j k l m n o p q r.
Definition set_kissState (v : kissState_t) (s : kissStepper) : kissStepper :=
  let (a, b, c, d, e, f, _, h, i, j, k, l, m, n, o, p, q, r) := s in
  mkStepper a b c d e f v h i j k l m n o p q r.
Definition set_pos (v : Z) (s : kissStepper) : kissStepper :=
  let (a, b, c, d, e, f, g, _, i, j, k, l, m, n, o, p, q, r) := s in
  mkStepper a b c d e f g v i j k l m n o p q r.
Definition set_distMoved (v : Z) (s : kissStepper) : kissStepper :=
  let (a, b, c, d, e, f, g, h, _, j, k, l, m, n, o, p, q, r) := s in
  mkStepper a b c d e f g h v j k l m n o p q r.
Definition set_distTotal (v : Z) (s : kissStepper) : kissStepper :=
  let (a, b, c, d, e, f, g, h, i, _, k, l, m, n, o, p, q, r) := s in
  mkStepper a b c d e f g h i v k l m n o p q r.
Definition set_distAccel (v : Z) (s : kissStepper) : kissStepper :=
  let (a, b, c, d, e, f, g, h, i, j, _, l, m, n, o, p, q, r) := s in
  mkStepper a b c d e f g h i j v l m n o p q r.
Definition set_distRun (v : Z) (s : kissStepper) : kissStepper :=
  let (a, b, c, d, e, f, g, h, i, j, k, _, m, n, o, p, q, r) := s in
  mkStepper a b c d e f g h i j k v m n o p q r.
Definition set_stepIntervalWhole (v : Z) (s : kissStepper) : kissStepper :=
  let (a, b, c, d, e, f, g, h, i, j, k, l, _, n, o, p, q, r) := s in
  mkStepper a b c d e f g h i j k l v n o p q r.
Definition set_stepInterval (v : float) (s : kissStepper) : kissStepper :=
  let (a, b, c, d, e, f, g, h, i, j, k, l, m, _, o, p, q, r) := s in
  mkStepper a b c d e f g h i j k l m v o p q r.
Definition set_constMult (v : float) (s : kissStepper) : kissStepper :=
  let (a, b, c, d, e, f, g, h, i, j, k, l, m, n, _, p, q, r) := s in
  mkStepper a b c d e f g h i j k l m n v p q r.
Definition set_maxSpeedStepInterval (v : Z) (s : kissStepper) : kissStepper :=
  let (a, b, c, d, e, f, g, h, i, j, k, l, m, n, o, _, q, r) := s in
  mkStepper a b c d e f g h i j k l m n o v q r.
Definition set_lastStepTime (v : Z) (s : kissStepper) : kissStepper :=
  let (a, b, c, d, e, f, g, h, i, j, k, l, m, n, o, p, _, r) := s in
  mkStepper a b c d e f g h i j k l m n o p v r.
Definition set_pulses (v : Z) (s : kissStepper) : kissStepper :=
  let (a, b, c, d, e, f, g, h, i, j, k, l, m, n, o, p, q, _) := s in
  mkStepper a b c d e f g h i j k l m n o p q v.

(** ** Helpers declared in the header *)

(** The [constrain(amt, low, high)] macro of the Arduino core. *)
Definition constrain (amt low high : Z) : Z :=
  if amt <? low then low else if amt >? high then high else amt.

(** Modelled from the spec: [setDir] is defined in [kissStepper.h]; it
    records the direction flag (and drives the DIR pin, which is not
    modelled). *)
Definition setDir (forwards : bool) (s : kissStepper) : kissStepper :=
  set_forwards forwards s.

(** Modelled from the spec: [updatePos] is defined in [kissStepper.h]; it
    commits [distanceMoved] into [currentPosition], applying the sign of the
    direction, and clears the pulses counted for the move. *)
Definition updatePos (s : kissStepper) : kissStepper :=
  let p := if m_forwards s
           then to_int32 (m_pos s + m_distMoved s)
           else to_int32 (m_pos s - m_distMoved s) in
  set_distMoved 0 (set_pos p s).

(** Modelled from the spec: [getDistRemaining] is defined in
    [kissStepper.h]; the distance remaining in the current move. *)
Definition getDistRemaining (s : kissStepper) : Z :=
  to_uint32 (m_distTotal s - m_distMoved s).

(** Modelled from the spec: [calcMaxAccelDist] is defined in
    [kissStepper.h]; [maxSpeed^2 / (2 * acceleration)], the number of steps
    needed to ramp from standstill to [maxSpeed]. *)
Definition calcMaxAccelDist (s : kissStepper) : Z :=
  to_uint32 (m_maxSpeed s * m_maxSpeed s / (2 * m_accel s)).

(** Modelled from the spec: [calcDecelDist] is defined in [kissStepper.h];
    the distance needed to decelerate to standstill from the current
    interval [T], [1 / (2 * c * T^2)], as a whole number of steps. *)
Definition calcDecelDist (s : kissStepper) : Z :=
  float_to_uint32
    (fdiv 1%Q (fmul (fmul 2%Q (m_constMult s))
                  (fmul (m_stepInterval s) (m_stepInterval s)))).

(** Modelled from the spec: [accelStep] and [decelStep] are defined in
    [kissStepper.h]; the next interval is [T * (1 - c * T^2)] when
    accelerating and [T * (1 + c * T^2)] when decelerating, each operation
    on [float]. *)
Definition accelStep (stepInterval constMult : float) : float :=
  fmul stepInterval (fsub 1%Q (fmul constMult (fmul stepInterval stepInterval))).
Definition decelStep (stepInterval constMult : float) : float :=
  fmul stepInterval (fadd 1%Q (fmul constMult (fmul stepInterval stepInterval))).


(** One pulse on the STEP pin (the section between [cli] and [sei]). *)
Definition stepPulse (s : kissStepper) : kissStepper :=
  set_pulses (pulses s + 1) s.

(** ** kissStepper without acceleration *)

Definition enable (s : kissStepper) : kissStepper := set_enabled true s.

Module kissStepperNoAccel.

Definition stop (s : kissStepper) : kissStepper :=
  let s := updatePos s in
  let s := set_distTotal 0 s in
  set_kissState STATE_STOPPED s.

Definition disable (s : kissStepper) : kissStepper :=
  let s := stop s in
  set_enabled false s.

Definition prepareMove (target : Z) (s : kissStepper) : bool * kissStepper :=
  if state_eqb (m_kissState s) STATE_STOPPED then
    let target := constrain target (m_reverseLimit s) (m_forwardLimit s) in
    if negb (target =? m_pos s) && (m_maxSpeed s >? 0) then
      let s := if negb (m_enabled s) then enable s else s in
      let s := setDir (target >? m_pos s) s in
      let s := set_kissState STATE_STARTING s in
      let s := set_distTotal
                 (to_uint32 (if target >? m_pos s
                             then to_int32 (target - m_pos s)
                             else to_int32 (m_pos s - target))) s in
      let s := set_stepIntervalWhole (ONE_SECOND / m_maxSpeed s) s in
      let s := if ONE_SECOND mod m_maxSpeed s >=? m_maxSpeed s / 2
               then set_stepIntervalWhole (to_uint32 (m_stepIntervalWhole s + 1)) s
               else s in
      (true, s)
    else (false, s)
  else (false, s).

Definition move (curTime : Z) (s : kissStepper) : kissStepper :=
  if state_eqb (m_kissState s) STATE_RUN then
    if to_uint32 (curTime - m_lastStepTime s) >=? m_stepIntervalWhole s then
      let s := set_lastStepTime
                 (to_uint32 (m_lastStepTime s + m_stepIntervalWhole s)) s in
      let s := stepPulse s in
      let s := set_distMoved (to_uint32 (m_distMoved s + 1)) s in
      if m_distMoved s =? m_distTotal s then stop s else s
    else s
  else if state_eqb (m_kissState s) STATE_STARTING then
    let s := set_lastStepTime curTime s in
    set_kissState STATE_RUN s
  else s.

End kissStepperNoAccel.

(** ** kissStepper with acceleration *)

Definition stop (s : kissStepper) : kissStepper :=
  let s := updatePos s in
  let s := set_distTotal 0 (set_distRun 0 (set_distAccel 0 s)) in
  set_kissState STATE_STOPPED s.

(** [disable] is inherited from the base class; its call of [stop] is taken
    to reach the [stop] of the accelerating controller ("disable implies
    stop"). *)
Definition disable (s : kissStepper) : kissStepper :=
  let s := stop s in
  set_enabled false s.

Definition prepareMove (target : Z) (s : kissStepper) : bool * kissStepper :=
  if state_eqb (m_kissState s) STATE_STOPPED then
    let target := constrain target (m_reverseLimit s) (m_forwardLimit s) in
    if negb (target =? m_pos s) && (m_maxSpeed s >? 0) then
      let s := if negb (m_enabled s) then enable s else s in
      let s := setDir (target >? m_pos s) s in
      let s := set_kissState STATE_STARTING s in
      let distRemaining :=
        to_uint32 (if target >? m_pos s
                   then to_int32 (target - m_pos s)
                   else to_int32 (m_pos s - target)) in
      let s := set_distAccel 0 (set_distRun 0 s) in
      let s := set_distTotal distRemaining s in
      if negb (m_accel s =? 0) then
        let s := set_distAccel (calcMaxAccelDist s) s in
        let s :=
          if m_distAccel s >=? distRemaining / 2
          then let s := set_distAccel (distRemaining / 2) s in
               set_distRun (m_distAccel s) s
          else set_distRun (to_uint32 (distRemaining - m_distAccel s)) s in
        let s := set_constMult
                   (fdiv (fdiv (float_of_Z (m_accel s)) (float_of_Z ONE_SECOND))
                         (float_of_Z ONE_SECOND)) s in
        (* uint32_t minSpeedStepInterval = m_stepInterval = ONE_SECOND / sqrt(2.0 * m_accel);
           the right-hand side is computed in [double] and stored as [float] *)
        let s := set_stepInterval
                   (float_of_double
                      (ddiv (double_of_Z ONE_SECOND)
                            (sqrt_double (dmul 2%Q (double_of_Z (m_accel s)))))) s in
        let minSpeedStepInterval := float_to_uint32 (m_stepInterval s) in
        let s := set_stepIntervalWhole minSpeedStepInterval s in
        (* the difference of the two unsigned integers is compared with 0.5 *)
        let s := if Qlt_le_dec (1 # 2)
                      (double_of_Z (to_uint32 (m_stepIntervalWhole s - minSpeedStepInterval)))
                 then set_stepIntervalWhole (to_uint32 (m_stepIntervalWhole s + 1)) s
                 else s in
        let s := set_maxSpeedStepInterval (ONE_SECOND / m_maxSpeed s) s in
        (true, s)
      else
        let s := set_distRun distRemaining s in
        let s := set_stepIntervalWhole (ONE_SECOND / m_maxSpeed s) s in
        let s := if ONE_SECOND mod m_maxSpeed s >=? m_maxSpeed s / 2
                 then set_stepIntervalWhole (to_uint32 (m_stepIntervalWhole s + 1)) s
                 else s in
        (true, s)
    else (false, s)
  else (false, s).

(** [m_stepIntervalWhole = m_stepInterval = v]: the [float] member takes the
    value, the integer member its truncation. *)
Definition assignInterval (v : float) (s : kissStepper) : kissStepper :=
  let s := set_stepInterval v s in
  set_stepIntervalWhole (float_to_uint32 (m_stepInterval s)) s.

Definition move (curTime : Z) (s : kissStepper) : kissStepper :=
  if state_gtb (m_kissState s) STATE_STARTING then
    if to_uint32 (curTime - m_lastStepTime s) >=? m_stepIntervalWhole s then
      let s := set_lastStepTime
                 (to_uint32 (m_lastStepTime s + m_stepIntervalWhole s)) s in
      let s := stepPulse s in
      let s := set_distMoved (to_uint32 (m_distMoved s + 1)) s in
      if state_eqb (m_kissState s) STATE_RUN then
        if m_distMoved s =? m_distRun s then
          if m_distTotal s =? m_distRun s then stop s
          else
            let s := set_kissState STATE_DECEL s in
            assignInterval (decelStep (m_stepInterval s) (m_constMult s)) s
        else s
      else if state_eqb (m_kissState s) STATE_ACCEL then
        if m_distMoved s =? m_distAccel s then
          if negb (m_distRun s =? m_distAccel s) then
            let s := set_kissState STATE_RUN s in
            (* m_stepInterval = m_stepIntervalWhole = m_maxSpeedStepInterval *)
            let s := set_stepIntervalWhole (m_maxSpeedStepInterval s) s in
            set_stepInterval (float_of_Z (m_stepIntervalWhole s)) s
          else
            let s := set_kissState STATE_DECEL s in
            assignInterval (decelStep (m_stepInterval s) (m_constMult s)) s
        else assignInterval (accelStep (m_stepInterval s) (m_constMult s)) s
      else
        if m_distMoved s =? m_distTotal s then stop s
        else assignInterval (decelStep (m_stepInterval s) (m_constMult s)) s
    else s
  else if state_eqb (m_kissState s) STATE_STARTING then
    let s := set_lastStepTime curTime s in
    if negb (m_distAccel s =? 0) then set_kissState STATE_ACCEL s
    else if negb (m_distRun s =? 0) then set_kissState STATE_RUN s
    else if negb (m_distTotal s =? 0) then set_kissState STATE_DECEL s
    else stop s
  else s.

Definition decelerate (s : kissStepper) : kissStepper :=
  if state_gtb (m_kissState s) STATE_STARTING then
    if m_accel s >? 0 then
      let distRemaining := getDistRemaining s in
      let maxDecelDist := calcDecelDist s in
      let decelDist := if maxDecelDist >? distRemaining
                       then distRemaining else maxDecelDist in
      let s := set_distAccel 0 s in
      let s := set_distRun 0 s in
      let s := set_distTotal (to_uint32 (m_distMoved s + decelDist)) s in
      set_kissState STATE_DECEL s
    else stop s
  else s.

(** The controller after construction and [begin]: direction forwards,
    driver disabled, stopped at position 0.  The members the constructor
    leaves unset read as 0. *)
Definition init (forwardLimit reverseLimit maxSpeed accel : Z) : kissStepper :=
  disable (setDir true
    (mkStepper forwardLimit reverseLimit maxSpeed accel
               false true STATE_STOPPED 0 0 0 0 0 0 0%Q 0%Q 0 0 0)).

(** Repeated calls of [move], one per element of the list of clock values. *)
Fixpoint run_moves (times : list Z) (s : kissStepper) : kissStepper :=
  match times with
  | [] => s
  | t :: ts => run_moves ts (move t s)
  end.

(** Simplification of member accesses and assignments, and nothing else. *)
Ltac simpl_fields :=
  cbn [m_forwardLimit m_reverseLimit m_maxSpeed m_accel m_enabled m_forwards
       m_kissState m_pos m_distMoved m_distTotal m_distAccel m_distRun
       m_stepIntervalWhole m_stepInterval m_constMult m_maxSpeedStepInterval
       m_lastStepTime pulses
       set_maxSpeed set_accel set_enabled set_forwards set_kissState set_pos
       set_distMoved set_distTotal set_distAccel set_distRun
       set_stepIntervalWhole set_stepInterval set_constMult
       set_maxSpeedStepInterval set_lastStepTime set_pulses
       enable setDir stepPulse updatePos assignInterval
       fst snd negb andb] in *.

(** The operations a caller can interleave during a move. *)
Inductive op : Type :=
| OpMove (curTime : Z)
| OpDecelerate
| OpStop
| OpEnable
| OpDisable.

Definition apply_op (o : op) (s : kissStepper) : kissStepper :=
  match o with
  | OpMove t => move t s
  | OpDecelerate => decelerate s
  | OpStop => stop s
  | OpEnable => enable s
  | OpDisable => disable s
  end.

Fixpoint run_ops (ops : list op) (s : kissStepper) : kissStepper :=
  match ops with
  | [] => s
  | o :: os => run_ops os (apply_op o s)
  end.

(** Ranges of the members, as their C++ types give them. *)
Record wf (s : kissStepper) : Prop := mkWf {
  wf_forwardLimit : is_int32 (m_forwardLimit s);
  wf_reverseLimit : is_int32 (m_reverseLimit s);
  wf_maxSpeed : is_uint16 (m_maxSpeed s);
  wf_accel : is_uint16 (m_accel s);
  wf_pos : is_int32 (m_pos s)
}.

(** Closed facts about concrete controllers are settled by evaluation. *)
Ltac by_compute :=
  vm_compute;
  repeat match goal with |- _ /\ _ => split end;
  first [reflexivity | discriminate | intro; discriminate].

(** ** Invariants and auxiliary notions of the statements *)

(** The moving phases: Cruising, Accelerating and Decelerating. *)
Definition is_moving (st : kissState_t) : Prop :=
  st = STATE_RUN \/ st = STATE_ACCEL \/ st = STATE_DECEL.

(** The distance of the move planned for [target]. *)
Definition plannedDistance (target : Z) (s : kissStepper) : Z :=
  let target := constrain target (m_reverseLimit s) (m_forwardLimit s) in
  to_uint32 (if target >? m_pos s
             then to_int32 (target - m_pos s)
             else to_int32 (m_pos s - target)).

(** What every call of [move] keeps true during the move planned from
    position [p0] to the clamped target [tgt]. *)
Definition move_inv (p0 tgt : Z) (s : kissStepper) : Prop :=
  match m_kissState s with
  | STATE_STOPPED => m_pos s = tgt
  | _ =>
      m_pos s = p0 /\ m_forwards s = (tgt >? p0) /\
      m_distTotal s =
        to_uint32 (if tgt >? p0 then to_int32 (tgt - p0) else to_int32 (p0 - tgt)) /\
      m_distTotal s <> 0
  end.

(** With [distAccel = distRun] on the way up, no operation enters Cruising. *)
Definition no_cruise_inv (s : kissStepper) : Prop :=
  match m_kissState s with
  | STATE_RUN => False
  | STATE_STARTING | STATE_ACCEL => m_distAccel s = m_distRun s
  | _ => True
  end.

(** The invariant of the data model. *)
Definition profile_inv (s : kissStepper) : Prop :=
  0 <= m_distMoved s <= m_distTotal s /\
  m_distAccel s <= m_distRun s <= m_distTotal s.

(** The invariant the state machine keeps: ranges of the members, the order
    of the phase boundaries, and for each state how far the move has come. *)
Definition phase_inv (s : kissStepper) : Prop :=
  (is_uint32 (m_distMoved s) /\ is_uint32 (m_distTotal s) /\
   is_uint32 (m_stepIntervalWhole s) /\ is_uint32 (m_lastStepTime s) /\
   is_uint32 (m_maxSpeedStepInterval s)) /\
  (0 <= m_distAccel s /\ m_distAccel s <= m_distRun s <= m_distTotal s) /\
  match m_kissState s with
  | STATE_STOPPED => m_distMoved s = 0 /\ m_distTotal s = 0
  | STATE_STARTING =>
      m_distMoved s = 0 /\ 0 < m_distTotal s /\
      (m_distAccel s = m_distRun s -> m_distRun s < m_distTotal s)
  | STATE_ACCEL =>
      m_distMoved s < m_distAccel s /\
      (m_distAccel s = m_distRun s -> m_distRun s < m_distTotal s)
  | STATE_RUN => m_distMoved s < m_distRun s
  | STATE_DECEL => m_distMoved s < m_distTotal s
  end.

(** The states a caller reaches from a fresh controller with [prepareMove],
    [move], [stop], [enable] and [disable]. *)
Inductive reachable : kissStepper -> Prop :=
| reach_init (forwardLimit reverseLimit maxSpeed accel : Z) :
    is_int32 forwardLimit -> is_int32 reverseLimit ->
    is_uint16 maxSpeed -> is_uint16 accel ->
    reachable (init forwardLimit reverseLimit maxSpeed accel)
| reach_prepareMove (target : Z) (s : kissStepper) :
    reachable s -> reachable (snd (prepareMove target s))
| reach_move (curTime : Z) (s : kissStepper) :
    is_uint32 curTime -> reachable s -> reachable (move curTime s)
| reach_stop (s : kissStepper) : reachable s -> reachable (stop s)
| reach_enable (s : kissStepper) : reachable s -> reachable (enable s)
| reach_disable (s : kissStepper) : reachable s -> reachable (disable s).

(** The states reached without [disable]: the operations whose calls of
    [stop] are calls made by the accelerating controller itself. *)
Inductive reachable_enabled : kissStepper -> Prop :=
| reach_en_init (forwardLimit reverseLimit maxSpeed accel : Z) :
    is_int32 forwardLimit -> is_int32 reverseLimit ->
    is_uint16 maxSpeed -> is_uint16 accel ->
    reachable_enabled (init forwardLimit reverseLimit maxSpeed accel)
| reach_en_prepareMove (target : Z) (s : kissStepper) :
    reachable_enabled s -> reachable_enabled (snd (prepareMove target s))
| reach_en_move (curTime : Z) (s : kissStepper) :
    is_uint32 curTime -> reachable_enabled s -> reachable_enabled (move curTime s)
| reach_en_stop (s : kissStepper) : reachable_enabled s -> reachable_enabled (stop s)
| reach_en_enable (s : kissStepper) :
    reachable_enabled s -> reachable_enabled (enable s).

(** The clock value at which the next pulse falls due. *)
Definition due (s : kissStepper) : Z :=
  to_uint32 (m_lastStepTime s + m_stepIntervalWhole s).

(** The clock values of [n] calls of [move], each made when a pulse is due. *)
Fixpoint due_times (n : nat) (s : kissStepper) : list Z :=
  match n with
  | O => []
  | S n' => due s :: due_times n' (move (due s) s)
  end.

(** Calls of [move] still needed: one per pulse, and one to leave Starting. *)
Definition remaining (s : kissStepper) : Z :=
  match m_kissState s with
  | STATE_STOPPED => 0
  | STATE_STARTING => m_distTotal s + 1
  | _ => m_distTotal s - m_distMoved s
  end.


(** ** Further notions: the controller without acceleration, phase order *)

(** Repeated calls of [kissStepperNoAccel.move], one per clock value. *)
Fixpoint run_moves_noaccel (times : list Z) (s : kissStepper) : kissStepper :=
  match times with
  | [] => s
  | t :: ts => run_moves_noaccel ts (kissStepperNoAccel.move t s)
  end.

(** The clock values of [n] calls of [kissStepperNoAccel.move], each made
    when a pulse is due. *)
Fixpoint due_times_noaccel (n : nat) (s : kissStepper) : list Z :=
  match n with
  | O => []
  | S n' => due s :: due_times_noaccel n' (kissStepperNoAccel.move (due s) s)
  end.

(** What the controller without acceleration keeps: it is never Accelerating
    or Decelerating, the pulses counted stay below the total while it runs,
    and they are cleared when it is Stopped. *)
Definition noaccel_inv (s : kissStepper) : Prop :=
  (is_uint32 (m_distMoved s) /\ is_uint32 (m_distTotal s) /\
   is_uint32 (m_stepIntervalWhole s) /\ is_uint32 (m_lastStepTime s)) /\
  match m_kissState s with
  | STATE_STOPPED => m_distMoved s = 0
  | STATE_STARTING => m_distMoved s = 0 /\ 0 < m_distTotal s
  | STATE_RUN => m_distMoved s < m_distTotal s
  | STATE_ACCEL | STATE_DECEL => False
  end.

(** The order in which a move passes through its phases. *)
Definition phase_rank (st : kissState_t) : Z :=
  match st with
  | STATE_STARTING => 0
  | STATE_ACCEL => 1
  | STATE_RUN => 2
  | STATE_DECEL => 3
  | STATE_STOPPED => 4
  end.

(** Two controllers agree on the members of the base class. *)
Definition base_agree (a n : kissStepper) : Prop :=
  m_forwardLimit a = m_forwardLimit n /\ m_reverseLimit a = m_reverseLimit n /\
  m_maxSpeed a = m_maxSpeed n /\
  m_enabled a = m_enabled n /\ m_forwards a = m_forwards n /\
  m_kissState a = m_kissState n /\ m_pos a = m_pos n /\
  m_distMoved a = m_distMoved n /\ m_distTotal a = m_distTotal n /\
  m_stepIntervalWhole a = m_stepIntervalWhole n /\
  m_lastStepTime a = m_lastStepTime n /\ pulses a = pulses n.

(** The configuration members, which no operation assigns. *)
Definition same_config (a b : kissStepper) : Prop :=
  m_forwardLimit a = m_forwardLimit b /\ m_reverseLimit a = m_reverseLimit b /\
  m_maxSpeed a = m_maxSpeed b /\ m_accel a = m_accel b.

(** During the move from position [p0] to the clamped target [tgt], started
    with [n0] pulses counted: the position is committed only by [stop], and
    the pulses emitted are the pulses counted for the move. *)
Definition track_inv (p0 n0 tgt : Z) (s : kissStepper) : Prop :=
  match m_kissState s with
  | STATE_STOPPED =>
      m_pos s = tgt /\ pulses s = n0 + Z.abs (tgt - p0) /\ m_distMoved s = 0
  | _ =>
      m_pos s = p0 /\ m_forwards s = (tgt >? p0) /\
      pulses s = n0 + m_distMoved s /\
      m_distTotal s = Z.abs (tgt - p0)
  end.

(** The accelerating controller [a] with acceleration zero, beside the
    controller without acceleration [n]: the base members agree, and [a] has
    planned no ramp. *)
Definition noaccel_sim (a n : kissStepper) : Prop :=
  base_agree a n /\
  m_distAccel a = 0 /\ m_distRun a = m_distTotal a /\
  match m_kissState a with
  | STATE_STARTING => m_distTotal a <> 0
  | STATE_ACCEL | STATE_DECEL => False
  | _ => True
  end.

(** The position is within the limits, and so is the end of the move under
    way. *)
Definition limits_inv (s : kissStepper) : Prop :=
  m_reverseLimit s <= m_pos s <= m_forwardLimit s /\
  match m_kissState s with
  | STATE_STOPPED => True
  | _ =>
      if m_forwards s
      then m_pos s + m_distTotal s <= m_forwardLimit s
      else m_reverseLimit s <= m_pos s - m_distTotal s
  end.

(** * Machine integer facts *)

Lemma to_uint32_range (x : Z) : 0 <= to_uint32 x < 2 ^ 32.
Proof. unfold to_uint32. apply Z.mod_pos_bound. lia. Qed.

Lemma to_uint32_small (x : Z) : 0 <= x < 2 ^ 32 -> to_uint32 x = x.
Proof. intros H. unfold to_uint32. apply Z.mod_small. exact H. Qed.

Lemma to_int32_small (x : Z) : - 2 ^ 31 <= x < 2 ^ 31 -> to_int32 x = x.
Proof. intros H. unfold to_int32. rewrite Z.mod_small; lia. Qed.

Lemma to_uint32_to_int32 (x : Z) : to_uint32 (to_int32 x) = to_uint32 x.
Proof.
  unfold to_uint32, to_int32.
  rewrite Zminus_mod, Zmod_mod, <- Zminus_mod.
  f_equal. lia.
Qed.

Lemma to_int32_congr (x y : Z) :
  x mod 2 ^ 32 = y mod 2 ^ 32 -> to_int32 x = to_int32 y.
Proof.
  intros H. unfold to_int32.
  rewrite (Zplus_mod x), (Zplus_mod y), H. reflexivity.
Qed.

Lemma to_int32_add_uint32 (p d : Z) : to_int32 (p + to_uint32 d) = to_int32 (p + d).
Proof.
  apply to_int32_congr. unfold to_uint32.
  rewrite Zplus_mod_idemp_r. reflexivity.
Qed.

Lemma to_int32_sub_uint32 (p d : Z) : to_int32 (p - to_uint32 d) = to_int32 (p - d).
Proof.
  apply to_int32_congr. unfold to_uint32.
  rewrite Zminus_mod_idemp_r. reflexivity.
Qed.

Lemma state_eqb_eq (a b : kissState_t) : state_eqb a b = true <-> a = b.
Proof. destruct a, b; cbn; split; intros H; try reflexivity; discriminate. Qed.

(** * Binary rounding

    The facts about [round_binary] the ramp needs: it is monotone, it is
    the identity on the values of the format, and it moves a value by a
    relative error within [eps]. *)









(** Rounding to the nearest integer is monotone and fixes the integers. *)






(** Rounding of a positive rational: monotone, positive, idempotent. *)





(** Rounding of any rational. *)










(** The two formats.  One tenth is stored as 0x3DCCCCCD in a [float] and as
    0x3FB999999999999A in a [double]; 2^24 + 1 is halfway between two
    values of [float] and goes to the even one. *)
Example binary_formats :
  to_float (1 # 10) = (13421773 # 134217728)%Q /\
  to_double (1 # 10) = (3602879701896397 # 36028797018963968)%Q /\
  float_of_Z 16777217 = 16777216%Q /\ float_of_Z 16777219 = 16777220%Q /\
  to_float (- (1 # 3)) = (- (11184811 # 33554432))%Q.
Proof. vm_compute. repeat split; reflexivity. Qed.












(** * C2 and C10: rejected commands *)

Lemma prepareMove_guard (s : kissStepper) (target : Z) :
  m_kissState s <> STATE_STOPPED \/
  constrain target (m_reverseLimit s) (m_forwardLimit s) = m_pos s \/
  m_maxSpeed s = 0 ->
  prepareMove target s = (false, s) /\
  kissStepperNoAccel.prepareMove target s = (false, s).
Proof.
  intros H. unfold prepareMove, kissStepperNoAccel.prepareMove.
  destruct (state_eqb (m_kissState s) STATE_STOPPED) eqn:Hst; [|split; reflexivity].
  apply state_eqb_eq in Hst.
  destruct H as [H | [H | H]].
  - contradiction.
  - rewrite H, Z.eqb_refl. split; reflexivity.
  - rewrite H. cbn [Z.gtb Z.compare]. rewrite andb_false_r. split; reflexivity.
Qed.

(** C2: in every state other than Stopped, and from Stopped whenever the
    clamped target equals the current position or the maximum speed is zero,
    [prepareMove] (of either controller) returns false and hands back the
    controller with every member unchanged. *)
Theorem C2_prepareMove_rejected (s : kissStepper) (target : Z) :
  m_kissState s <> STATE_STOPPED \/
  constrain target (m_reverseLimit s) (m_forwardLimit s) = m_pos s \/
  m_maxSpeed s = 0 ->
  prepareMove target s = (false, s) /\
  kissStepperNoAccel.prepareMove target s = (false, s).
Proof. exact (prepareMove_guard s target). Qed.

(** A moving controller (one call of [move] after a successful
    [prepareMove]) rejects a new command. *)
Lemma C2_prepareMove_rejected_witness :
  let s := move 0 (snd (prepareMove 10 (init 2147483647 (-2147483648) 1000 2000))) in
  prepareMove 25 s = (false, s) /\ kissStepperNoAccel.prepareMove 25 s = (false, s).
Proof.
  intro s. apply (C2_prepareMove_rejected s 25).
  left. vm_compute. discriminate.
Defined.

(** C10: with a non-empty interval of limits, a target strictly beyond the
    limit at which the controller already stands differs from the current
    position, and still [prepareMove] returns false, leaves the driver as it
    was (enabled or not) and changes no member. *)
Theorem C10_target_beyond_limit_rejected (s : kissStepper) (target : Z) :
  m_reverseLimit s <= m_forwardLimit s ->
  (m_forwardLimit s < target /\ m_pos s = m_forwardLimit s) \/
  (target < m_reverseLimit s /\ m_pos s = m_reverseLimit s) ->
  target <> m_pos s /\
  prepareMove target s = (false, s) /\
  kissStepperNoAccel.prepareMove target s = (false, s) /\
  m_enabled (snd (prepareMove target s)) = m_enabled s.
Proof.
  intros Hlim H.
  assert (Hc : constrain target (m_reverseLimit s) (m_forwardLimit s) = m_pos s).
  { unfold constrain. destruct H as [[Hlt Hp] | [Hlt Hp]].
    - destruct (Z.ltb_spec target (m_reverseLimit s)); [lia|].
      destruct (Z.gtb_spec target (m_forwardLimit s)); [congruence | lia].
    - destruct (Z.ltb_spec target (m_reverseLimit s)); [congruence | lia]. }
  destruct (prepareMove_guard s target (or_intror (or_introl Hc))) as [H1 H2].
  rewrite H1. repeat split; try assumption.
  destruct H as [[Hlt Hp] | [Hlt Hp]]; lia.
Qed.

Lemma C10_target_beyond_limit_rejected_witness :
  let s := set_pos 100 (init 100 (-100) 1000 2000) in
  150 <> m_pos s /\
  prepareMove 150 s = (false, s) /\
  kissStepperNoAccel.prepareMove 150 s = (false, s) /\
  m_enabled (snd (prepareMove 150 s)) = m_enabled s.
Proof.
  intro s. apply (C10_target_beyond_limit_rejected s 150).
  - vm_compute. discriminate.
  - left. split; [reflexivity | reflexivity].
Defined.

(** * C6: the first call of [move] after [prepareMove] *)

Lemma state_gtb_starting (st : kissState_t) :
  state_gtb st STATE_STARTING = true <-> is_moving st.
Proof.
  unfold is_moving. destruct st; cbn; split; intros H; auto;
    try discriminate; destruct H as [H | [H | H]]; discriminate.
Qed.

(** C6: a call of [move] in state Starting records the current time in
    [lastStepTime], emits no pulse, and enters the first phase of nonzero
    distance in the order Accelerating, Cruising, Decelerating; when the three
    distances are all zero the call is [stop] and the state is Stopped. *)
Theorem C6_move_from_starting (curTime : Z) (s : kissStepper) :
  m_kissState s = STATE_STARTING ->
  m_lastStepTime (move curTime s) = curTime /\
  pulses (move curTime s) = pulses s /\
  (m_distAccel s <> 0 -> m_kissState (move curTime s) = STATE_ACCEL) /\
  (m_distAccel s = 0 -> m_distRun s <> 0 ->
     m_kissState (move curTime s) = STATE_RUN) /\
  (m_distAccel s = 0 -> m_distRun s = 0 -> m_distTotal s <> 0 ->
     m_kissState (move curTime s) = STATE_DECEL) /\
  (m_distAccel s = 0 -> m_distRun s = 0 -> m_distTotal s = 0 ->
     move curTime s = stop (set_lastStepTime curTime s) /\
     m_kissState (move curTime s) = STATE_STOPPED).
Proof.
  intros Hst. unfold move. rewrite Hst. cbn [state_gtb state_eqb state_code Z.ltb Z.eqb Z.compare].
  destruct s as [fl rl ms ac en fw st ps dm dt da dr siw si cm mssi lst pu].
  cbn in *.
  destruct (Z.eqb_spec da 0) as [Ha | Ha];
    destruct (Z.eqb_spec dr 0) as [Hr | Hr];
    destruct (Z.eqb_spec dt 0) as [Ht | Ht]; cbn;
    repeat split; intros; try reflexivity; try contradiction; try congruence;
    auto.
Qed.

(** A Starting controller with a triangular profile: the call enters
    Accelerating without a pulse. *)
Lemma C6_move_from_starting_witness :
  let s := snd (prepareMove 10 (init 2147483647 (-2147483648) 1000 2000)) in
  m_lastStepTime (move 42 s) = 42 /\
  pulses (move 42 s) = pulses s /\
  m_kissState (move 42 s) = STATE_ACCEL.
Proof.
  intro s.
  destruct (C6_move_from_starting 42 s eq_refl) as (Ht & Hp & Ha & _).
  split; [exact Ht | split; [exact Hp | apply Ha; vm_compute; discriminate]].
Defined.

(** * C7: [decelerate] *)

Lemma calcDecelDist_range (s : kissStepper) : 0 <= calcDecelDist s < 2 ^ 32.
Proof. apply to_uint32_range. Qed.

(** C7: in a moving phase with a nonzero acceleration, [decelerate] takes the
    distance to standstill from the current interval, clamps it to the
    distance remaining, zeroes [distAccel] and [distRun], sets [distTotal] to
    [distMoved] plus that distance and enters Decelerating, changing nothing
    else; in a moving phase with acceleration zero it is [stop]; in state
    Stopped it changes nothing. *)
Theorem C7_decelerate (s : kissStepper) :
  (is_moving (m_kissState s) -> m_accel s > 0 ->
     let decelDist := Z.min (calcDecelDist s) (getDistRemaining s) in
     decelDist <= getDistRemaining s /\
     decelerate s =
       set_kissState STATE_DECEL
         (set_distTotal (to_uint32 (m_distMoved s + decelDist))
            (set_distRun 0 (set_distAccel 0 s))) /\
     m_distAccel (decelerate s) = 0 /\
     m_distRun (decelerate s) = 0 /\
     m_kissState (decelerate s) = STATE_DECEL /\
     (is_uint32 (m_distTotal s) -> 0 <= m_distMoved s <= m_distTotal s ->
        m_distTotal (decelerate s) = m_distMoved s + decelDist)) /\
  (is_moving (m_kissState s) -> m_accel s = 0 -> decelerate s = stop s) /\
  (m_kissState s = STATE_STOPPED -> decelerate s = s).
Proof.
  split; [|split].
  - intros Hmv Hacc decelDist.
    apply state_gtb_starting in Hmv.
    assert (Heq : decelerate s =
       set_kissState STATE_DECEL
         (set_distTotal (to_uint32 (m_distMoved s + decelDist))
            (set_distRun 0 (set_distAccel 0 s)))).
    { unfold decelerate. rewrite Hmv.
      destruct (Z.gtb_spec (m_accel s) 0) as [_ | Hn]; [|lia].
      subst decelDist. unfold Z.min.
      destruct (Z.gtb_spec (calcDecelDist s) (getDistRemaining s)) as [Hgt | Hle].
      - destruct (Z.compare_spec (calcDecelDist s) (getDistRemaining s)); try lia.
        destruct s; reflexivity.
      - destruct (Z.compare_spec (calcDecelDist s) (getDistRemaining s)).
        + replace (getDistRemaining s) with (calcDecelDist s) by assumption.
          destruct s; reflexivity.
        + destruct s; reflexivity.
        + lia. }
    split; [subst decelDist; lia|].
    split; [exact Heq|].
    rewrite Heq. subst decelDist.
    pose proof (calcDecelDist_range s) as Hc.
    assert (Hg : is_uint32 (m_distTotal s) -> 0 <= m_distMoved s <= m_distTotal s ->
                 getDistRemaining s = m_distTotal s - m_distMoved s).
    { intros Hr Hm. apply to_uint32_small. unfold is_uint32 in Hr. lia. }
    remember (calcDecelDist s) as c eqn:Ec.
    remember (getDistRemaining s) as g eqn:Eg.
    clear Ec Eg Heq. destruct s; cbn in *.
    repeat split.
    intros Hr Hm. specialize (Hg Hr Hm). apply to_uint32_small.
    unfold is_uint32 in Hr. lia.
  - intros Hmv Hacc. apply state_gtb_starting in Hmv.
    unfold decelerate. rewrite Hmv, Hacc. reflexivity.
  - intros Hst. unfold decelerate. rewrite Hst. reflexivity.
Qed.

(** Two pulses into a move of 10 steps the distance to standstill is 5 steps
    and 8 steps remain. *)
Lemma C7_decelerate_witness :
  let s := run_moves [0; 500000; 750000]
             (snd (prepareMove 10 (init 2147483647 (-2147483648) 1000 2))) in
  m_distTotal (decelerate s) = 2 + Z.min 5 8 /\
  m_kissState (decelerate s) = STATE_DECEL.
Proof.
  intro s.
  destruct (C7_decelerate s) as (H & _ & _).
  assert (Hmv : is_moving (m_kissState s)) by (right; left; reflexivity).
  assert (Hacc : m_accel s > 0) by reflexivity.
  destruct (H Hmv Hacc) as (_ & _ & _ & _ & Hst & Htot).
  split; [rewrite Htot; [reflexivity | by_compute | by_compute] | exact Hst].
Defined.

(** * The plan computed by a successful [prepareMove] *)

(** The rounding test of the accelerating path compares the difference of
    two equal unsigned integers with one half: it never succeeds. *)
Lemma initial_rounding_dead (w : Z) (A : Type) (a b : A) :
  (if Qlt_le_dec (1 # 2) (double_of_Z (to_uint32 (w - w))) then a else b) = b.
Proof.
  rewrite Z.sub_diag. destruct (Qlt_le_dec _ _) as [H | H]; [|reflexivity].
  exfalso. revert H. vm_compute. discriminate.
Qed.

(** [prepareMove], member by member. *)
Lemma prepareMove_eq (target : Z) (s : kissStepper) :
  prepareMove target s =
  let tgt := constrain target (m_reverseLimit s) (m_forwardLimit s) in
  let D := plannedDistance target s in
  if state_eqb (m_kissState s) STATE_STOPPED then
    if negb (tgt =? m_pos s) && (m_maxSpeed s >? 0) then
      if negb (m_accel s =? 0) then
        let A := calcMaxAccelDist s in
        let T0 := float_of_double
                    (ddiv (double_of_Z ONE_SECOND)
                          (sqrt_double (dmul 2%Q (double_of_Z (m_accel s))))) in
        (true,
         mkStepper (m_forwardLimit s) (m_reverseLimit s) (m_maxSpeed s) (m_accel s)
           true (tgt >? m_pos s) STATE_STARTING (m_pos s) (m_distMoved s) D
           (if A >=? D / 2 then D / 2 else A)
           (if A >=? D / 2 then D / 2 else to_uint32 (D - A))
           (float_to_uint32 T0) T0
           (fdiv (fdiv (float_of_Z (m_accel s)) (float_of_Z ONE_SECOND))
                 (float_of_Z ONE_SECOND))
           (ONE_SECOND / m_maxSpeed s) (m_lastStepTime s) (pulses s))
      else
        (true,
         mkStepper (m_forwardLimit s) (m_reverseLimit s) (m_maxSpeed s) (m_accel s)
           true (tgt >? m_pos s) STATE_STARTING (m_pos s) (m_distMoved s) D
           0 D
           (if ONE_SECOND mod m_maxSpeed s >=? m_maxSpeed s / 2
            then to_uint32 (ONE_SECOND / m_maxSpeed s + 1)
            else ONE_SECOND / m_maxSpeed s)
           (m_stepInterval s) (m_constMult s) (m_maxSpeedStepInterval s)
           (m_lastStepTime s) (pulses s))
    else (false, s)
  else (false, s).
Proof.
  unfold prepareMove, plannedDistance.
  destruct s as [fl rl ms ac en fw st ps dm dt da dr siw si cm mssi lst pu].
  simpl_fields. cbv zeta.
  destruct (state_eqb st STATE_STOPPED); [|reflexivity].
  destruct (negb (constrain target rl fl =? ps) && (ms >? 0)); [|reflexivity].
  destruct en; simpl_fields.
  all: destruct (negb (ac =? 0)).
  all: unfold calcMaxAccelDist; simpl_fields.
  all: try (destruct (ONE_SECOND mod ms >=? ms / 2); simpl_fields; reflexivity).
  all: destruct (_ >=? _); simpl_fields;
         rewrite initial_rounding_dead; reflexivity.
Qed.

(** * C5: the interval of a move without acceleration *)

(** What the path without acceleration stores, for either controller. *)
Lemma prepareMove_noaccel_interval (s s1 : kissStepper) (target : Z) :
  m_accel s = 0 ->
  prepareMove target s = (true, s1) ->
  m_stepIntervalWhole s1 =
    ONE_SECOND / m_maxSpeed s +
    (if ONE_SECOND mod m_maxSpeed s >=? m_maxSpeed s / 2 then 1 else 0).
Proof.
  intros Hacc Hprep. rewrite prepareMove_eq in Hprep. cbv zeta in Hprep.
  destruct (state_eqb (m_kissState s) STATE_STOPPED); [|discriminate].
  destruct (negb (constrain target (m_reverseLimit s) (m_forwardLimit s) =? m_pos s)
            && (m_maxSpeed s >? 0)) eqn:Hg; [|discriminate].
  apply andb_prop in Hg. destruct Hg as [_ Hms]. apply Z.gtb_lt in Hms.
  rewrite Hacc in Hprep. cbn [Z.eqb negb] in Hprep.
  inversion Hprep as [Hs1]. clear Hprep Hs1. simpl_fields.
  destruct (ONE_SECOND mod m_maxSpeed s >=? m_maxSpeed s / 2); [|lia].
  apply to_uint32_small. unfold ONE_SECOND.
  assert (0 <= 1000000 / m_maxSpeed s <= 1000000); [|lia].
  split; [apply Z.div_pos; lia|]. apply Z.div_le_upper_bound; lia.
Qed.

Lemma round_half_up_div (a b : Z) :
  0 < b -> round_half_up (inject_Z a / inject_Z b) = (2 * a + b) / (2 * b).
Proof.
  intros Hb. destruct b as [|p|p]; try lia.
  unfold round_half_up, Qfloor, Qplus, Qdiv, Qmult, Qinv, inject_Z.
  cbn [Qnum Qden]. f_equal; lia.
Qed.

(** The stored interval is the nearest whole microsecond, ties upward,
    except for an odd [maxSpeed] whose remainder is [maxSpeed / 2]. *)
Lemma noaccel_interval_nearest (maxSpeed : Z) :
  0 < maxSpeed ->
  Z.even maxSpeed = true \/ ONE_SECOND mod maxSpeed <> maxSpeed / 2 ->
  ONE_SECOND / maxSpeed +
    (if ONE_SECOND mod maxSpeed >=? maxSpeed / 2 then 1 else 0) =
  round_half_up (inject_Z ONE_SECOND / inject_Z maxSpeed).
Proof.
  intros Hms Hcase. rewrite round_half_up_div by exact Hms.
  pose proof (Z.div_mod ONE_SECOND maxSpeed ltac:(lia)) as Hdm.
  pose proof (Z.mod_pos_bound ONE_SECOND maxSpeed Hms) as Hr.
  set (q := ONE_SECOND / maxSpeed) in *.
  set (r := ONE_SECOND mod maxSpeed) in *.
  clearbody q r.
  assert (Hhalf : r >= maxSpeed / 2 -> 2 * r >= maxSpeed).
  { intros Hge. destruct Hcase as [Hev | Hne].
    - apply Z.even_spec in Hev. destruct Hev as [k Hk]. lia.
    - lia. }
  destruct (Z.geb_spec r (maxSpeed / 2)) as [Hge | Hlt].
  - apply Z.div_unique with (r := 2 * r - maxSpeed); lia.
  - apply Z.div_unique with (r := 2 * r + maxSpeed); lia.
Qed.

(** C5, at [maxSpeed = 3], an odd speed with remainder 1, strictly below half
    of 3: both controllers store 333334 microseconds, while 1000000 / 3
    rounded to the nearest whole microsecond is 333333. *)
Theorem C5_interval_rounded_up_at_maxSpeed_3 :
  let s := init 2147483647 (-2147483648) 3 0 in
  fst (prepareMove 1 s) = true /\
  m_stepIntervalWhole (snd (prepareMove 1 s)) = 333334 /\
  fst (kissStepperNoAccel.prepareMove 1 s) = true /\
  m_stepIntervalWhole (snd (kissStepperNoAccel.prepareMove 1 s)) = 333334 /\
  round_half_up (inject_Z ONE_SECOND / inject_Z 3) = 333333 /\
  Z.odd 3 = true /\
  2 * (ONE_SECOND mod 3) < 3.
Proof. by_compute. Qed.

(** At [maxSpeed = 1] the division is exact and the stored interval is one
    microsecond too long. *)
Example interval_at_maxSpeed_1 :
  m_stepIntervalWhole
    (snd (prepareMove 1 (init 2147483647 (-2147483648) 1 0))) = 1000001.
Proof. reflexivity. Qed.


(** * Case analysis of the operations *)

(** Each test of the code is split with its arithmetic reading. *)
Ltac split_test :=
  lazymatch goal with
  | |- context [if negb (?a =? ?b) then _ else _] =>
      destruct (Z.eqb_spec a b); cbn [negb]
  | |- context [if ?a =? ?b then _ else _] => destruct (Z.eqb_spec a b)
  | |- context [if ?a >=? ?b then _ else _] => destruct (Z.geb_spec a b)
  | |- context [if ?a >? ?b then _ else _] => destruct (Z.gtb_spec a b)
  | |- context [if ?a <? ?b then _ else _] => destruct (Z.ltb_spec a b)
  end.

Ltac unfold_ops :=
  unfold move, decelerate, disable, stop, getDistRemaining in *;
  simpl_fields;
  cbn [state_gtb state_eqb state_code Z.ltb Z.eqb Z.compare Pos.compare
       Pos.compare_cont Pos.eqb] in *.

Ltac op_cases := unfold_ops; repeat (split_test; simpl_fields).

Lemma final_pos_forwards (p0 tgt : Z) :
  is_int32 tgt ->
  to_int32 (p0 + to_uint32 (to_int32 (tgt - p0))) = tgt.
Proof.
  intros H. rewrite to_uint32_to_int32, to_int32_add_uint32.
  replace (p0 + (tgt - p0)) with tgt by ring. apply to_int32_small. exact H.
Qed.

Lemma final_pos_backwards (p0 tgt : Z) :
  is_int32 tgt ->
  to_int32 (p0 - to_uint32 (to_int32 (p0 - tgt))) = tgt.
Proof.
  intros H. rewrite to_uint32_to_int32, to_int32_sub_uint32.
  replace (p0 - (p0 - tgt)) with tgt by ring. apply to_int32_small. exact H.
Qed.

Lemma constrain_cases (amt low high : Z) :
  constrain amt low high = low \/ constrain amt low high = high \/
  (constrain amt low high = amt /\ low <= amt <= high).
Proof.
  unfold constrain.
  destruct (Z.ltb_spec amt low); [auto|].
  destruct (Z.gtb_spec amt high); [auto|]. right. right. lia.
Qed.

Lemma constrain_limits_int32 (amt low high : Z) :
  is_int32 low -> is_int32 high -> is_int32 (constrain amt low high).
Proof.
  intros Hl Hh. unfold is_int32 in *.
  destruct (constrain_cases amt low high) as [E | [E | [E Hb]]]; rewrite E; lia.
Qed.

Lemma plannedDistance_nonzero (target : Z) (s : kissStepper) :
  wf s ->
  constrain target (m_reverseLimit s) (m_forwardLimit s) <> m_pos s ->
  plannedDistance target s =
    Z.abs (constrain target (m_reverseLimit s) (m_forwardLimit s) - m_pos s) /\
  0 < plannedDistance target s < 2 ^ 32.
Proof.
  intros [Hf Hr _ _ Hp] Hne. unfold plannedDistance.
  pose proof (constrain_limits_int32 target _ _ Hr Hf) as Hc.
  set (tgt := constrain target (m_reverseLimit s) (m_forwardLimit s)) in *.
  clearbody tgt. unfold is_int32 in *.
  destruct (Z.gtb_spec tgt (m_pos s)); rewrite to_uint32_to_int32;
    rewrite to_uint32_small by lia; lia.
Qed.

(** * C1: the position at the end of a move *)

Lemma move_inv_step (p0 tgt t : Z) (s : kissStepper) :
  is_int32 tgt -> move_inv p0 tgt s -> move_inv p0 tgt (move t s).
Proof.
  intros Htgt. unfold move_inv.
  destruct s as [fl rl ms ac en fw st ps dm dt da dr siw si cm mssi lst pu].
  simpl_fields.
  destruct st; intros Hinv; op_cases; simpl_fields;
    try exact Hinv; try (destruct Hinv as (? & ? & ? & ?); contradiction).
  all: destruct Hinv as (Hp & Hf & Hd & Hnz); subst ps fw.
  all: assert (Hm : to_uint32 (dm + 1) = dt) by congruence.
  all: rewrite Hm, Hd; destruct (Z.gtb_spec tgt p0);
       [apply final_pos_forwards | apply final_pos_backwards]; exact Htgt.
Qed.

Lemma move_inv_run (p0 tgt : Z) (times : list Z) (s : kissStepper) :
  is_int32 tgt -> move_inv p0 tgt s -> move_inv p0 tgt (run_moves times s).
Proof.
  intros Htgt. revert s.
  induction times as [|t ts IH]; intros s Hinv; cbn [run_moves].
  - exact Hinv.
  - apply IH. apply move_inv_step; assumption.
Qed.

Lemma prepareMove_true (s s1 : kissStepper) (target : Z) :
  prepareMove target s = (true, s1) ->
  m_kissState s = STATE_STOPPED /\
  constrain target (m_reverseLimit s) (m_forwardLimit s) <> m_pos s /\
  0 < m_maxSpeed s.
Proof.
  intros Hprep. rewrite prepareMove_eq in Hprep. cbv zeta in Hprep.
  destruct (state_eqb (m_kissState s) STATE_STOPPED) eqn:Hst; [|discriminate].
  destruct (negb (_ =? _) && _) eqn:Hg; [|discriminate].
  apply andb_prop in Hg. destruct Hg as [Hne Hms].
  apply negb_true_iff, Z.eqb_neq in Hne. apply Z.gtb_lt in Hms.
  apply state_eqb_eq in Hst. auto.
Qed.

(** The members of the plan that do not depend on the acceleration. *)
Lemma prepareMove_plan (s s1 : kissStepper) (target : Z) :
  prepareMove target s = (true, s1) ->
  m_forwardLimit s1 = m_forwardLimit s /\ m_reverseLimit s1 = m_reverseLimit s /\
  m_maxSpeed s1 = m_maxSpeed s /\ m_accel s1 = m_accel s /\
  m_enabled s1 = true /\
  m_forwards s1 =
    (constrain target (m_reverseLimit s) (m_forwardLimit s) >? m_pos s) /\
  m_kissState s1 = STATE_STARTING /\ m_pos s1 = m_pos s /\
  m_distMoved s1 = m_distMoved s /\
  m_distTotal s1 = plannedDistance target s /\
  m_lastStepTime s1 = m_lastStepTime s /\ pulses s1 = pulses s.
Proof.
  intros Hprep. rewrite prepareMove_eq in Hprep. cbv zeta in Hprep.
  destruct (state_eqb (m_kissState s) STATE_STOPPED); [|discriminate].
  destruct (negb (_ =? _) && _); [|discriminate].
  destruct (negb (m_accel s =? 0));
    inversion Hprep as [Hs1]; simpl_fields; repeat split; reflexivity.
Qed.

(** * C3: triangular and trapezoidal profiles *)

Lemma calcMaxAccelDist_wf (s : kissStepper) :
  wf s -> 0 < m_accel s ->
  calcMaxAccelDist s = m_maxSpeed s ^ 2 / (2 * m_accel s).
Proof.
  intros [_ _ Hms Hac _] Hpos. unfold calcMaxAccelDist, is_uint16 in *.
  replace (m_maxSpeed s ^ 2) with (m_maxSpeed s * m_maxSpeed s) by ring.
  apply to_uint32_small.
  assert (0 <= m_maxSpeed s * m_maxSpeed s < 2 ^ 32) by nia.
  split.
  - apply Z.div_pos; lia.
  - apply Z.div_lt_upper_bound; nia.
Qed.

(** The members of the plan with a nonzero acceleration. *)
Lemma prepareMove_plan_accel (s s1 : kissStepper) (target : Z) :
  prepareMove target s = (true, s1) ->
  m_accel s <> 0 ->
  let D := plannedDistance target s in
  m_distAccel s1 =
    (if calcMaxAccelDist s >=? D / 2 then D / 2 else calcMaxAccelDist s) /\
  m_distRun s1 =
    (if calcMaxAccelDist s >=? D / 2 then D / 2
     else to_uint32 (D - calcMaxAccelDist s)) /\
  m_constMult s1 =
    fdiv (fdiv (float_of_Z (m_accel s)) (float_of_Z ONE_SECOND))
         (float_of_Z ONE_SECOND) /\
  m_stepInterval s1 =
    float_of_double
      (ddiv (double_of_Z ONE_SECOND)
            (sqrt_double (dmul 2%Q (double_of_Z (m_accel s))))) /\
  m_stepIntervalWhole s1 = float_to_uint32 (m_stepInterval s1) /\
  m_maxSpeedStepInterval s1 = ONE_SECOND / m_maxSpeed s.
Proof.
  intros Hprep Hac D. rewrite prepareMove_eq in Hprep. cbv zeta in Hprep.
  destruct (state_eqb (m_kissState s) STATE_STOPPED); [|discriminate].
  destruct (negb (_ =? _) && _); [|discriminate].
  destruct (Z.eqb_spec (m_accel s) 0); [contradiction|].
  cbn [negb] in Hprep.
  inversion Hprep as [Hs1]; simpl_fields; repeat split; reflexivity.
Qed.

(** The members of the plan with acceleration zero. *)
Lemma prepareMove_plan_noaccel (s s1 : kissStepper) (target : Z) :
  prepareMove target s = (true, s1) ->
  m_accel s = 0 ->
  m_distAccel s1 = 0 /\
  m_distRun s1 = plannedDistance target s /\
  m_constMult s1 = m_constMult s /\
  m_stepInterval s1 = m_stepInterval s /\
  m_maxSpeedStepInterval s1 = m_maxSpeedStepInterval s.
Proof.
  intros Hprep Hac. rewrite prepareMove_eq in Hprep. cbv zeta in Hprep.
  destruct (state_eqb (m_kissState s) STATE_STOPPED); [|discriminate].
  destruct (negb (_ =? _) && _); [|discriminate].
  rewrite Hac in Hprep. cbn [Z.eqb negb] in Hprep.
  inversion Hprep as [Hs1]; simpl_fields; repeat split; reflexivity.
Qed.

Lemma no_cruise_inv_op (o : op) (s : kissStepper) :
  no_cruise_inv s -> no_cruise_inv (apply_op o s).
Proof.
  unfold no_cruise_inv.
  destruct s as [fl rl ms ac en fw st ps dm dt da dr siw si cm mssi lst pu].
  destruct o; cbn [apply_op]; destruct st; simpl_fields; intros Hinv; op_cases;
    simpl_fields; try exact Hinv; try exact I; try contradiction; congruence.
Qed.

Lemma no_cruise_inv_run (ops : list op) (s : kissStepper) :
  no_cruise_inv s -> no_cruise_inv (run_ops ops s).
Proof.
  revert s. induction ops as [|o os IH]; intros s Hinv; cbn [run_ops].
  - exact Hinv.
  - apply IH, no_cruise_inv_op, Hinv.
Qed.

(** C3: after a successful [prepareMove] with a nonzero acceleration, where
    [D] is the distance to the clamped target: if
    [maxSpeed^2 / (2 * accel) >= D / 2] the plan has
    [distAccel = distRun = D / 2] and no sequence of operations of the move
    ([move], [decelerate], [stop], [enable], [disable]) reaches Cruising;
    otherwise [distRun = D - distAccel]. *)
Theorem C3_profile_shape (s s1 : kissStepper) (target : Z) :
  wf s ->
  0 < m_accel s ->
  prepareMove target s = (true, s1) ->
  let D := Z.abs (constrain target (m_reverseLimit s) (m_forwardLimit s) - m_pos s) in
  m_distTotal s1 = D /\
  (m_maxSpeed s ^ 2 / (2 * m_accel s) >= D / 2 ->
     m_distAccel s1 = D / 2 /\ m_distRun s1 = D / 2 /\
     forall ops : list op, m_kissState (run_ops ops s1) <> STATE_RUN) /\
  (m_maxSpeed s ^ 2 / (2 * m_accel s) < D / 2 ->
     m_distAccel s1 = m_maxSpeed s ^ 2 / (2 * m_accel s) /\
     m_distRun s1 = D - m_distAccel s1).
Proof.
  intros Hwf Hac Hprep D.
  pose proof (prepareMove_true _ _ _ Hprep) as (_ & Hne & _).
  pose proof (prepareMove_plan _ _ _ Hprep)
    as (_ & _ & _ & _ & _ & _ & Hst & _ & _ & Hdt & _ & _).
  pose proof (prepareMove_plan_accel _ _ _ Hprep ltac:(lia)) as (Hda & Hdr & _).
  pose proof (plannedDistance_nonzero target s Hwf Hne) as [HD HDr].
  rewrite (calcMaxAccelDist_wf s Hwf Hac) in Hda, Hdr.
  fold D in HD. rewrite HD in *. clear HD.
  set (A := m_maxSpeed s ^ 2 / (2 * m_accel s)) in *.
  assert (HA : 0 <= A).
  { subst A. apply Z.div_pos; [apply Z.pow_even_nonneg; exists 1; reflexivity | lia]. }
  clearbody A D.
  split; [exact Hdt|]. split.
  - intros Hge. destruct (Z.geb_spec A (D / 2)); [|lia].
    split; [exact Hda|]. split; [exact Hdr|].
    intros ops Hrun.
    assert (Hinv : no_cruise_inv s1).
    { unfold no_cruise_inv. rewrite Hst. congruence. }
    apply (no_cruise_inv_run ops) in Hinv.
    unfold no_cruise_inv in Hinv. rewrite Hrun in Hinv. exact Hinv.
  - intros Hlt. destruct (Z.geb_spec A (D / 2)); [lia|].
    split; [exact Hda|].
    rewrite Hdr, Hda. apply to_uint32_small. lia.
Qed.

(** The example of the spec: [maxSpeed = 1000], [acceleration = 2000], 10
    steps from 0 give a triangular profile with [distAccel = distRun = 5]. *)
Lemma C3_profile_shape_witness :
  let s := init 2147483647 (-2147483648) 1000 2000 in
  let s1 := snd (prepareMove 10 s) in
  m_distAccel s1 = 5 /\ m_distRun s1 = 5 /\
  m_kissState (run_ops [OpMove 0; OpMove 20000; OpDecelerate] s1) <> STATE_RUN.
Proof.
  intros s s1.
  assert (Hwf : wf s) by (split; by_compute).
  assert (Hac : 0 < m_accel s) by reflexivity.
  destruct (C3_profile_shape s s1 10 Hwf Hac eq_refl) as (_ & Htri & _).
  destruct Htri as (Ha & Hr & Hc); [by_compute|].
  split; [exact Ha|]. split; [exact Hr|]. apply Hc.
Defined.

(** * C9: the profile invariant *)

Lemma phase_inv_profile_inv (s : kissStepper) : phase_inv s -> profile_inv s.
Proof.
  unfold phase_inv, profile_inv, is_uint32.
  intros ((Hm & Ht & _) & (Ha & Hr) & Hst).
  destruct (m_kissState s); lia.
Qed.

Lemma float_to_uint32_range (q : float) : is_uint32 (float_to_uint32 q).
Proof. apply to_uint32_range. Qed.

Lemma phase_inv_move (t : Z) (s : kissStepper) :
  is_uint32 t -> phase_inv s -> phase_inv (move t s).
Proof.
  intros Ht. unfold phase_inv.
  destruct s as [fl rl ms ac en fw st ps dm dt da dr siw si cm mssi lst pu].
  simpl_fields.
  intros ((Hdm & Hdt & Hsiw & Hlst & Hmssi) & (Hda & Hdr) & Hst).
  pose proof (to_uint32_range (lst + siw)) as Hl.
  pose proof (float_to_uint32_range (accelStep si cm)) as Hacc.
  pose proof (float_to_uint32_range (decelStep si cm)) as Hdec.
  assert (Hinc : dm < dt -> to_uint32 (dm + 1) = dm + 1).
  { intros Hlt. apply to_uint32_small. unfold is_uint32 in *. lia. }
  destruct st; op_cases; simpl_fields; unfold is_uint32 in *;
    try (rewrite Hinc in * by lia);
    repeat match goal with |- _ /\ _ => split end; intros; lia.
Qed.

Lemma phase_inv_stop (s : kissStepper) : phase_inv s -> phase_inv (stop s).
Proof.
  unfold phase_inv.
  destruct s as [fl rl ms ac en fw st ps dm dt da dr siw si cm mssi lst pu].
  op_cases. unfold is_uint32. intros ((_ & _ & ? & ? & ?) & _).
  repeat match goal with |- _ /\ _ => split end; lia.
Qed.

Lemma phase_inv_enable (s : kissStepper) : phase_inv s -> phase_inv (enable s).
Proof. destruct s. exact (fun H => H). Qed.

Lemma phase_inv_disable (s : kissStepper) : phase_inv s -> phase_inv (disable s).
Proof.
  intros H. apply phase_inv_stop in H. unfold disable.
  destruct (stop s). exact H.
Qed.

(** [decelerate] keeps the invariant as long as the deceleration distance it
    computes is not zero. *)
Lemma phase_inv_decelerate (s : kissStepper) :
  (is_moving (m_kissState s) -> m_accel s > 0 -> calcDecelDist s <> 0) ->
  phase_inv s -> phase_inv (decelerate s).
Proof.
  intros Hnz Hinv.
  destruct (state_gtb (m_kissState s) STATE_STARTING) eqn:Hmv.
  - destruct (Z.gtb_spec (m_accel s) 0) as [Hac | Hac].
    + assert (Hd : decelerate s =
                   set_kissState STATE_DECEL
                     (set_distTotal
                        (to_uint32 (m_distMoved s +
                           (if calcDecelDist s >? getDistRemaining s
                            then getDistRemaining s else calcDecelDist s)))
                        (set_distRun 0 (set_distAccel 0 s)))).
      { unfold decelerate. rewrite Hmv.
        destruct (Z.gtb_spec (m_accel s) 0); [|lia].
        destruct s; reflexivity. }
      rewrite Hd. clear Hd.
      apply state_gtb_starting in Hmv.
      specialize (Hnz Hmv ltac:(lia)).
      pose proof (calcDecelDist_range s) as Hc.
      revert Hnz Hc. generalize (calcDecelDist s). intros c Hnz Hc.
      unfold phase_inv in *.
      destruct s as [fl rl ms ac en fw st ps dm dt da dr siw si cm mssi lst pu].
      unfold getDistRemaining. simpl_fields.
      destruct Hinv as ((Hdm & Hdt & Hsiw & Hlst & Hmssi) & (Hda & Hdr) & Hst).
      unfold is_uint32 in *.
      assert (Hlt : dm < dt) by (destruct st; destruct Hmv as [E | [E | E]];
                                 try discriminate; lia).
      rewrite (to_uint32_small (dt - dm)) by lia.
      destruct (Z.gtb_spec c (dt - dm)).
      * replace (dm + (dt - dm)) with dt by ring.
        rewrite to_uint32_small by lia.
        repeat match goal with |- _ /\ _ => split end; lia.
      * rewrite to_uint32_small by lia.
        repeat match goal with |- _ /\ _ => split end; lia.
    + assert (Hd : decelerate s = stop s).
      { unfold decelerate. rewrite Hmv.
        destruct (Z.gtb_spec (m_accel s) 0); [lia | reflexivity]. }
      rewrite Hd. apply phase_inv_stop, Hinv.
  - unfold decelerate. rewrite Hmv. exact Hinv.
Qed.

Lemma prepareMove_false (s s1 : kissStepper) (target : Z) :
  prepareMove target s = (false, s1) -> s1 = s.
Proof.
  intros Hprep. rewrite prepareMove_eq in Hprep. cbv zeta in Hprep.
  destruct (state_eqb (m_kissState s) STATE_STOPPED); [|congruence].
  destruct (negb (_ =? _) && _); [|congruence].
  destruct (negb (m_accel s =? 0)); discriminate.
Qed.

Lemma div_ONE_SECOND_range (maxSpeed : Z) :
  0 < maxSpeed -> 0 <= ONE_SECOND / maxSpeed <= ONE_SECOND.
Proof.
  intros H. unfold ONE_SECOND. split.
  - apply Z.div_pos; lia.
  - apply Z.div_le_upper_bound; lia.
Qed.

Lemma phase_inv_prepareMove (target : Z) (s : kissStepper) :
  wf s -> phase_inv s -> phase_inv (snd (prepareMove target s)).
Proof.
  intros Hwf Hinv.
  destruct (prepareMove target s) as [[|] s1] eqn:Hprep; cbn [snd].
  2: { apply prepareMove_false in Hprep. subst s1. exact Hinv. }
  pose proof (prepareMove_true _ _ _ Hprep) as (Hstop & Hne & Hms).
  pose proof (prepareMove_plan _ _ _ Hprep)
    as (_ & _ & _ & _ & _ & _ & Hst & _ & Hdm & Hdt & Hlst & _).
  pose proof (plannedDistance_nonzero target s Hwf Hne) as [_ HD].
  pose proof (div_ONE_SECOND_range _ Hms) as Hq.
  unfold phase_inv in *. rewrite Hstop in Hinv.
  destruct Hinv as ((Hm & Ht & Hsiw & Hl & Hmssi) & _ & (Hm0 & _)).
  rewrite Hst, Hdm, Hdt, Hlst, Hm0.
  destruct (Z.eq_dec (m_accel s) 0) as [Hac | Hac].
  - pose proof (prepareMove_plan_noaccel _ _ _ Hprep Hac) as (Ha & Hr & _ & _ & Hi).
    pose proof (prepareMove_noaccel_interval _ _ _ Hac Hprep) as Hw.
    rewrite Ha, Hr, Hi, Hw. unfold is_uint32, ONE_SECOND in *.
    destruct (_ >=? _); repeat match goal with |- _ /\ _ => split end; lia.
  - pose proof (prepareMove_plan_accel _ _ _ Hprep Hac) as (Ha & Hr & _ & _ & Hw & Hi).
    pose proof (float_to_uint32_range (m_stepInterval s1)) as Hwr.
    pose proof (to_uint32_range (m_maxSpeed s * m_maxSpeed s / (2 * m_accel s))) as HA.
    fold (calcMaxAccelDist s) in HA.
    rewrite Ha, Hr, Hi, Hw. unfold is_uint32, ONE_SECOND in *.
    destruct (Z.geb_spec (calcMaxAccelDist s) (plannedDistance target s / 2)).
    + repeat match goal with |- _ /\ _ => split end; lia.
    + rewrite to_uint32_small by lia.
      repeat match goal with |- _ /\ _ => split end; lia.
Qed.

Lemma wf_updatePos_stop (s : kissStepper) : wf s -> wf (stop s).
Proof.
  intros [Hf Hr Hm Ha Hp].
  destruct s as [fl rl ms ac en fw st ps dm dt da dr siw si cm mssi lst pu].
  unfold_ops. split; simpl_fields; try assumption.
  unfold is_int32, to_int32. destruct fw; lia.
Qed.

Lemma wf_move (t : Z) (s : kissStepper) : wf s -> wf (move t s).
Proof.
  intros [Hf Hr Hm Ha Hp].
  destruct s as [fl rl ms ac en fw st ps dm dt da dr siw si cm mssi lst pu].
  simpl_fields.
  destruct st; op_cases; split; simpl_fields; try assumption;
    unfold is_int32, to_int32; destruct fw; lia.
Qed.

Lemma wf_prepareMove (target : Z) (s : kissStepper) :
  wf s -> wf (snd (prepareMove target s)).
Proof.
  intros Hwf.
  destruct (prepareMove target s) as [[|] s1] eqn:Hprep; cbn [snd].
  2: { apply prepareMove_false in Hprep. subst s1. exact Hwf. }
  pose proof (prepareMove_plan _ _ _ Hprep)
    as (H1 & H2 & H3 & H4 & _ & _ & _ & H5 & _).
  destruct Hwf. split; congruence.
Qed.

Lemma reachable_inv (s : kissStepper) : reachable s -> wf s /\ phase_inv s.
Proof.
  induction 1 as [fl rl ms ac Hf Hr Hm Ha | target s _ [Hwf Hinv]
                  | t s Ht _ [Hwf Hinv] | s _ [Hwf Hinv] | s _ [Hwf Hinv]
                  | s _ [Hwf Hinv]].
  - split.
    + split; cbn; try assumption. by_compute.
    + unfold phase_inv, is_uint32. cbn. lia.
  - split; [apply wf_prepareMove | apply phase_inv_prepareMove]; assumption.
  - split; [apply wf_move | apply phase_inv_move]; assumption.
  - split; [apply wf_updatePos_stop | apply phase_inv_stop]; assumption.
  - split; [|apply phase_inv_enable; assumption].
    destruct Hwf. destruct s. split; assumption.
  - split; [|apply phase_inv_disable; assumption].
    apply wf_updatePos_stop in Hwf. unfold disable.
    destruct Hwf. destruct (stop s). split; assumption.
Qed.

(** Without [decelerate], every reachable state satisfies the invariant of
    the data model. *)
Lemma reachable_profile_inv (s : kissStepper) : reachable s -> profile_inv s.
Proof. intros H. apply phase_inv_profile_inv, reachable_inv, H. Qed.

(** C9, at a move of 3 steps with [maxSpeed = 1000] and [acceleration = 2]:
    after the first pulse the controller is Decelerating with an interval of
    750000 microseconds, from which the distance to standstill truncates to
    0; [decelerate] then sets [distTotal] to [distMoved], and the next pulse
    takes [distMoved] past [distTotal]: the invariant fails and the
    controller is still Decelerating. *)
Theorem C9_decelerate_breaks_profile_inv :
  let s := init 2147483647 (-2147483648) 1000 2 in
  let s1 := run_ops [OpMove 0; OpMove 500000] (snd (prepareMove 3 s)) in
  let s2 := run_ops [OpDecelerate; OpMove 1250000] s1 in
  fst (prepareMove 3 s) = true /\
  profile_inv s1 /\
  m_kissState s1 = STATE_DECEL /\ calcDecelDist s1 = 0 /\
  m_kissState s2 = STATE_DECEL /\
  m_distMoved s2 = 2 /\ m_distTotal s2 = 1 /\
  ~ profile_inv s2.
Proof.
  cbv zeta. repeat match goal with |- _ /\ _ => split end;
    try reflexivity; try by_compute.
  unfold profile_inv. vm_compute. intros [[_ H] _]. apply H. reflexivity.
Qed.

(** * C1, continued: every move can be driven to its end *)

Lemma remaining_zero (s : kissStepper) :
  phase_inv s -> remaining s <= 0 -> m_kissState s = STATE_STOPPED.
Proof.
  unfold phase_inv, remaining, is_uint32.
  intros (_ & Hb & Hst) Hr. destruct (m_kissState s); try reflexivity; exfalso; lia.
Qed.

Lemma remaining_due_move (s : kissStepper) :
  phase_inv s -> remaining (move (due s) s) <= Z.max 0 (remaining s - 1).
Proof.
  unfold phase_inv, remaining, due.
  destruct s as [fl rl ms ac en fw st ps dm dt da dr siw si cm mssi lst pu].
  simpl_fields.
  intros ((Hdm & Hdt & Hsiw & Hlst & Hmssi) & (Hda & Hdr) & Hst).
  unfold is_uint32 in *.
  assert (Hdue : to_uint32 (to_uint32 (lst + siw) - lst) = siw).
  { unfold to_uint32. clear - Hsiw Hlst. lia. }
  assert (Hinc : dm < dt -> to_uint32 (dm + 1) = dm + 1).
  { intros Hlt. apply to_uint32_small. lia. }
  destruct st; unfold_ops; try rewrite Hdue;
    try (destruct (Z.geb_spec siw siw); [|lia]);
    repeat (split_test; simpl_fields);
    simpl_fields; try (rewrite Hinc in * by lia); lia.
Qed.

Lemma due_times_stop (n : nat) (s : kissStepper) :
  phase_inv s -> remaining s <= Z.of_nat n ->
  m_kissState (run_moves (due_times n s) s) = STATE_STOPPED.
Proof.
  revert s. induction n as [|n IH]; intros s Hinv Hr; cbn [due_times run_moves].
  - apply remaining_zero; [exact Hinv | lia].
  - apply IH.
    + apply phase_inv_move; [apply to_uint32_range | exact Hinv].
    + pose proof (remaining_due_move s Hinv). lia.
Qed.

Lemma due_times_uint32 (n : nat) (s : kissStepper) :
  Forall is_uint32 (due_times n s).
Proof.
  revert s. induction n as [|n IH]; intros s; cbn [due_times]; constructor.
  - apply to_uint32_range.
  - apply IH.
Qed.

(** A move is driven to its end by calling [move] whenever a pulse is due. *)
Lemma due_times_complete (s s1 : kissStepper) (target : Z) :
  wf s -> phase_inv s ->
  prepareMove target s = (true, s1) ->
  m_kissState (run_moves (due_times (Z.to_nat (remaining s1)) s1) s1) =
    STATE_STOPPED.
Proof.
  intros Hwf Hinv Hprep.
  pose proof (phase_inv_prepareMove target s Hwf Hinv) as Hinv1.
  rewrite Hprep in Hinv1. cbn [snd] in Hinv1.
  assert (Hn : 0 <= remaining s1).
  { unfold phase_inv, remaining, is_uint32 in *.
    destruct Hinv1 as (Ha & Hb & Hst). destruct (m_kissState s1); lia. }
  apply due_times_stop; [exact Hinv1 | lia].
Qed.

(** C1: after a successful [prepareMove target], whatever the clock values
    at which [move] is called, once [move] has returned Stopped the current
    position is the target clamped to the limits; and from a state that
    satisfies the invariant of the state machine (every reachable state
    does) some sequence of calls of [move] does return Stopped. *)
Theorem C1_position_after_move (s s1 : kissStepper) (target : Z) :
  wf s ->
  prepareMove target s = (true, s1) ->
  (forall times : list Z,
     m_kissState (run_moves times s1) = STATE_STOPPED ->
     m_pos (run_moves times s1) =
       constrain target (m_reverseLimit s) (m_forwardLimit s)) /\
  (phase_inv s ->
   exists times : list Z,
     Forall is_uint32 times /\
     m_kissState (run_moves times s1) = STATE_STOPPED).
Proof.
  intros Hwf Hprep. split.
  - intros times Hstop.
    pose proof (prepareMove_true _ _ _ Hprep) as (_ & Hne & _).
    pose proof (prepareMove_plan _ _ _ Hprep)
      as (_ & _ & _ & _ & _ & Hfw & Hst & Hpos & _ & Hdt & _ & _).
    pose proof (plannedDistance_nonzero target s Hwf Hne) as [_ Hnz].
    assert (Htgt : is_int32 (constrain target (m_reverseLimit s) (m_forwardLimit s))).
    { destruct Hwf. apply constrain_limits_int32; assumption. }
    assert (Hinv : move_inv (m_pos s)
                     (constrain target (m_reverseLimit s) (m_forwardLimit s)) s1).
    { unfold move_inv. rewrite Hst, Hpos, Hfw, Hdt.
      repeat split; try reflexivity. lia. }
    pose proof (move_inv_run _ _ times s1 Htgt Hinv) as Hend.
    unfold move_inv in Hend. rewrite Hstop in Hend. exact Hend.
  - intros Hinv. exists (due_times (Z.to_nat (remaining s1)) s1).
    split; [apply due_times_uint32|].
    apply (due_times_complete s s1 target); assumption.
Qed.

(** A move of 3 steps with a triangular profile, driven at the clock values
    at which its pulses fall due. *)
Lemma C1_position_after_move_witness :
  let s := init 2147483647 (-2147483648) 1000 2 in
  let times := [0; 500000; 1250000; 2843750] in
  m_kissState (run_moves times (snd (prepareMove 3 s))) = STATE_STOPPED /\
  m_pos (run_moves times (snd (prepareMove 3 s))) = 3.
Proof.
  intros s times.
  assert (Hwf : wf s) by (split; by_compute).
  destruct (C1_position_after_move s (snd (prepareMove 3 s)) 3 Hwf eq_refl)
    as [Hpos _].
  split; [reflexivity | exact (Hpos times eq_refl)].
Defined.

(** A move without acceleration: [maxSpeed = 1000], 500 steps from 0.  The
    move ends after 500 pulses at position 500; the first call is made at
    clock value 1000 and the pulses follow 1000 microseconds apart. *)
Example move_500_steps_no_accel :
  let s1 := snd (prepareMove 500 (init 2147483647 (-2147483648) 1000 0)) in
  let s2 := run_moves (due_times 501 s1) s1 in
  m_stepIntervalWhole s1 = 1000 /\
  m_kissState s2 = STATE_STOPPED /\ pulses s2 = 500 /\ m_pos s2 = 500 /\
  m_lastStepTime s2 = 1000 + 500 * 1000.
Proof. by_compute. Qed.

(** * C4: the whole interval and the real-valued interval *)

Lemma Qtrunc_floor (q : Q) : (0 <= q)%Q -> Qtrunc q = Qfloor q.
Proof.
  destruct q as [n d]. unfold Qle, Qtrunc, Qfloor. cbn [Qnum Qden].
  intros H. apply Z.quot_div_nonneg; lia.
Qed.

(** Within the range of [uint32_t] the conversion is the floor: the whole
    interval is at most the real-valued one and less than one below it. *)
Lemma float_to_uint32_floor (q : float) :
  (0 <= q)%Q -> (q < inject_Z (2 ^ 32))%Q ->
  float_to_uint32 q = Qfloor q /\
  (inject_Z (float_to_uint32 q) <= q)%Q /\
  (q < inject_Z (float_to_uint32 q) + 1)%Q.
Proof.
  intros H0 H1. unfold float_to_uint32. rewrite (Qtrunc_floor q H0).
  assert (Hr : 0 <= Qfloor q < 2 ^ 32).
  { split.
    - rewrite <- (Qfloor_Z 0).
      apply Qfloor_resp_le. exact H0.
    - rewrite Zlt_Qlt. apply Qle_lt_trans with q; [apply Qfloor_le | exact H1]. }
  rewrite (to_uint32_small _ Hr).
  split; [reflexivity|]. split; [apply Qfloor_le|].
  pose proof (Qlt_floor q) as Hlt. rewrite inject_Z_plus in Hlt. exact Hlt.
Qed.

(** C4, in the form the code satisfies: whenever a call of [move] emits a
    pulse and leaves the controller Accelerating or Decelerating, the
    real-valued interval is the accel or decel step of the previous
    real-valued interval, unrounded, and the whole interval is its
    conversion to an unsigned integer, which truncates: within the range of
    [uint32_t] it is the floor. *)
Theorem C4_interval_truncated (curTime : Z) (s : kissStepper) :
  pulses (move curTime s) = pulses s + 1 ->
  m_kissState (move curTime s) = STATE_ACCEL \/
  m_kissState (move curTime s) = STATE_DECEL ->
  (m_kissState (move curTime s) = STATE_ACCEL ->
     m_stepInterval (move curTime s) =
       accelStep (m_stepInterval s) (m_constMult s)) /\
  (m_kissState (move curTime s) = STATE_DECEL ->
     m_stepInterval (move curTime s) =
       decelStep (m_stepInterval s) (m_constMult s)) /\
  m_stepIntervalWhole (move curTime s) =
    float_to_uint32 (m_stepInterval (move curTime s)) /\
  ((0 <= m_stepInterval (move curTime s))%Q ->
   (m_stepInterval (move curTime s) < inject_Z (2 ^ 32))%Q ->
   m_stepIntervalWhole (move curTime s) = Qfloor (m_stepInterval (move curTime s))).
Proof.
  intros Hpulse Hstate.
  assert (Hmain :
    (m_kissState (move curTime s) = STATE_ACCEL ->
       m_stepInterval (move curTime s) =
         accelStep (m_stepInterval s) (m_constMult s)) /\
    (m_kissState (move curTime s) = STATE_DECEL ->
       m_stepInterval (move curTime s) =
         decelStep (m_stepInterval s) (m_constMult s)) /\
    m_stepIntervalWhole (move curTime s) =
      float_to_uint32 (m_stepInterval (move curTime s))).
  { revert Hpulse Hstate.
    destruct s as [fl rl ms ac en fw st ps dm dt da dr siw si cm mssi lst pu].
    simpl_fields.
    destruct st; op_cases; simpl_fields; intros Hpulse Hstate;
      try lia; try (destruct Hstate; discriminate);
      repeat split; intros; try reflexivity; discriminate. }
  destruct Hmain as (Ha & Hd & Hw).
  repeat split; try assumption.
  intros H0 H1. rewrite Hw. apply float_to_uint32_floor; assumption.
Qed.

(** The third pulse of a ramp: the interval 197814.9375 is stored whole as
    197814. *)
Lemma C4_interval_truncated_witness :
  let s := run_moves [0; 500000; 750000]
             (snd (prepareMove 10 (init 2147483647 (-2147483648) 1000 2))) in
  m_stepInterval (move 968750 s) = (3165039 # 16)%Q /\
  m_stepIntervalWhole (move 968750 s) = 197814.
Proof.
  intro s.
  assert (Hp : pulses (move 968750 s) = pulses s + 1) by reflexivity.
  assert (Hs : m_kissState (move 968750 s) = STATE_ACCEL \/
               m_kissState (move 968750 s) = STATE_DECEL) by (left; reflexivity).
  destruct (C4_interval_truncated 968750 s Hp Hs) as (Ha & _ & _ & Hf).
  split.
  - rewrite Ha; reflexivity.
  - rewrite Hf; by_compute.
Defined.

(** C4 with rounding to the nearest whole microsecond does not hold: after
    the third pulse of the same ramp the real-valued interval is
    197814.9375, whose nearest whole number is 197815, and the whole
    interval stored is 197814. *)
Lemma C4_counterexample :
  let s := run_moves [0; 500000; 750000]
             (snd (prepareMove 10 (init 2147483647 (-2147483648) 1000 2))) in
  m_kissState s = STATE_ACCEL /\
  m_kissState (move 968750 s) = STATE_ACCEL /\
  pulses (move 968750 s) = pulses s + 1 /\
  m_stepInterval (move 968750 s) = accelStep (m_stepInterval s) (m_constMult s) /\
  round_half_up (m_stepInterval (move 968750 s)) = 197815 /\
  m_stepIntervalWhole (move 968750 s) = 197814 /\
  m_stepIntervalWhole (move 968750 s) <>
    round_half_up (m_stepInterval (move 968750 s)).
Proof. by_compute. Qed.

(** The initial interval of [prepareMove] is truncated as well: with
    [acceleration = 1] it is 707106.75, stored whole as 707106. *)
Example initial_interval_truncated :
  let s1 := snd (prepareMove 10 (init 2147483647 (-2147483648) 1000 1)) in
  round_half_up (m_stepInterval s1) = 707107 /\ m_stepIntervalWhole s1 = 707106.
Proof. by_compute. Qed.

(** * C8: the interval along the ramp *)






















(** The order of C8 is not strict.  At 160 microseconds per step with the
    multiplier of [acceleration = 1], the term [c * T^2] is below half a
    unit in the last place of 1, the factor [1 - c * T^2] rounds to 1, and
    the step of the acceleration returns the interval it was given: from
    such an interval on, an Accelerating controller repeats its interval at
    every pulse. *)
Example accelStep_stagnates :
  let c := fdiv (fdiv (float_of_Z 1) (float_of_Z ONE_SECOND)) (float_of_Z ONE_SECOND) in
  to_float 160%Q = 160%Q /\
  fsub 1%Q (fmul c (fmul 160%Q 160%Q)) = 1%Q /\
  accelStep 160%Q c = 160%Q.
Proof. by_compute. Qed.

(** The same in a state of the controller: an Accelerating controller with
    [acceleration = 1] and an interval of 160 microseconds emits a pulse,
    stays Accelerating, and keeps the interval. *)
Example interval_repeats_while_accelerating :
  let c := fdiv (fdiv (float_of_Z 1) (float_of_Z ONE_SECOND)) (float_of_Z ONE_SECOND) in
  let s := mkStepper 2147483647 (-2147483648) 10000 1 true true STATE_ACCEL
             0 10 1000 500 500 160 160%Q c 100 0 10 in
  m_kissState (move 160 s) = STATE_ACCEL /\
  pulses (move 160 s) = pulses s + 1 /\
  m_stepInterval (move 160 s) = m_stepInterval s.
Proof. by_compute. Qed.

(** With [maxSpeed^2 < 2 * acceleration] the plan has no acceleration phase
    and Cruising is entered from Starting, at the initial interval of the
    ramp: with [maxSpeed = 1] and [acceleration = 2] the controller cruises
    at 500000 microseconds per step while [maxSpeedStepInterval] is
    1000000. *)
Example cruise_from_starting :
  let s2 := move 0 (snd (prepareMove 10 (init 2147483647 (-2147483648) 1 2))) in
  m_kissState s2 = STATE_RUN /\
  m_stepInterval s2 = 500000%Q /\ m_stepIntervalWhole s2 = 500000 /\
  m_maxSpeedStepInterval s2 = 1000000.
Proof. by_compute. Qed.

(** * The controller without acceleration *)

Ltac unfold_noaccel :=
  unfold kissStepperNoAccel.move, kissStepperNoAccel.disable,
         kissStepperNoAccel.stop in *;
  simpl_fields;
  cbn [state_gtb state_eqb state_code Z.ltb Z.eqb Z.compare Pos.compare
       Pos.compare_cont Pos.eqb] in *.

Ltac noaccel_cases := unfold_noaccel; repeat (split_test; unfold_noaccel).

(** [kissStepperNoAccel.prepareMove], member by member. *)
Lemma noaccel_prepareMove_eq (target : Z) (s : kissStepper) :
  kissStepperNoAccel.prepareMove target s =
  let tgt := constrain target (m_reverseLimit s) (m_forwardLimit s) in
  if state_eqb (m_kissState s) STATE_STOPPED then
    if negb (tgt =? m_pos s) && (m_maxSpeed s >? 0) then
      (true,
       mkStepper (m_forwardLimit s) (m_reverseLimit s) (m_maxSpeed s) (m_accel s)
         true (tgt >? m_pos s) STATE_STARTING (m_pos s) (m_distMoved s)
         (plannedDistance target s) (m_distAccel s) (m_distRun s)
         (if ONE_SECOND mod m_maxSpeed s >=? m_maxSpeed s / 2
          then to_uint32 (ONE_SECOND / m_maxSpeed s + 1)
          else ONE_SECOND / m_maxSpeed s)
         (m_stepInterval s) (m_constMult s) (m_maxSpeedStepInterval s)
         (m_lastStepTime s) (pulses s))
    else (false, s)
  else (false, s).
Proof.
  unfold kissStepperNoAccel.prepareMove, plannedDistance.
  destruct s as [fl rl ms ac en fw st ps dm dt da dr siw si cm mssi lst pu].
  simpl_fields. cbv zeta.
  destruct (state_eqb st STATE_STOPPED); [|reflexivity].
  destruct (negb (constrain target rl fl =? ps) && (ms >? 0)); [|reflexivity].
  destruct en; simpl_fields;
    destruct (ONE_SECOND mod ms >=? ms / 2); simpl_fields; reflexivity.
Qed.

(** X6: [prepareMove] of either controller returns true exactly when the
    controller is Stopped, the clamped target differs from the position and
    the maximum speed is positive; the two controllers accept the same
    commands, and the driver is enabled after the call exactly when it was
    enabled before or the command was accepted. *)
Theorem X6_prepareMove_accepts_iff (s : kissStepper) (target : Z) :
  (fst (prepareMove target s) = true <->
     m_kissState s = STATE_STOPPED /\
     constrain target (m_reverseLimit s) (m_forwardLimit s) <> m_pos s /\
     0 < m_maxSpeed s) /\
  fst (kissStepperNoAccel.prepareMove target s) = fst (prepareMove target s) /\
  m_enabled (snd (prepareMove target s)) =
    (m_enabled s || fst (prepareMove target s))%bool /\
  m_enabled (snd (kissStepperNoAccel.prepareMove target s)) =
    (m_enabled s || fst (kissStepperNoAccel.prepareMove target s))%bool.
Proof.
  rewrite prepareMove_eq, noaccel_prepareMove_eq. cbv zeta.
  destruct (state_eqb (m_kissState s) STATE_STOPPED) eqn:Hst.
  - apply state_eqb_eq in Hst.
    destruct (Z.eqb_spec (constrain target (m_reverseLimit s) (m_forwardLimit s))
                         (m_pos s)) as [He | He]; cbn [negb andb].
    + cbn [fst snd]. rewrite orb_false_r. repeat split; try discriminate.
      intros (_ & H & _). contradiction.
    + destruct (Z.gtb_spec (m_maxSpeed s) 0) as [Hm | Hm].
      * destruct (negb (m_accel s =? 0)); cbn [fst snd m_enabled];
          rewrite orb_true_r; repeat split; auto.
      * cbn [fst snd]. rewrite orb_false_r. repeat split; try discriminate.
        intros (_ & _ & H). lia.
  - cbn [fst snd]. rewrite orb_false_r. repeat split; try discriminate.
    intros (H & _). rewrite H in Hst. discriminate.
Qed.

Lemma noaccel_prepareMove_plan (s s1 : kissStepper) (target : Z) :
  kissStepperNoAccel.prepareMove target s = (true, s1) ->
  (m_kissState s = STATE_STOPPED /\
   constrain target (m_reverseLimit s) (m_forwardLimit s) <> m_pos s /\
   0 < m_maxSpeed s) /\
  same_config s1 s /\
  m_enabled s1 = true /\
  m_forwards s1 =
    (constrain target (m_reverseLimit s) (m_forwardLimit s) >? m_pos s) /\
  m_kissState s1 = STATE_STARTING /\ m_pos s1 = m_pos s /\
  m_distMoved s1 = m_distMoved s /\
  m_distTotal s1 = plannedDistance target s /\
  m_stepIntervalWhole s1 =
    ONE_SECOND / m_maxSpeed s +
    (if ONE_SECOND mod m_maxSpeed s >=? m_maxSpeed s / 2 then 1 else 0) /\
  m_lastStepTime s1 = m_lastStepTime s /\ pulses s1 = pulses s.
Proof.
  intros Hprep. rewrite noaccel_prepareMove_eq in Hprep. cbv zeta in Hprep.
  destruct (state_eqb (m_kissState s) STATE_STOPPED) eqn:Hst; [|discriminate].
  destruct (negb (_ =? _) && _) eqn:Hg; [|discriminate].
  apply andb_prop in Hg. destruct Hg as [Hne Hms].
  apply negb_true_iff, Z.eqb_neq in Hne. apply Z.gtb_lt in Hms.
  apply state_eqb_eq in Hst.
  pose proof (div_ONE_SECOND_range _ Hms) as Hq.
  inversion Hprep as [Hs1]. clear Hprep Hs1. unfold same_config. simpl_fields.
  repeat match goal with |- _ /\ _ => split end; try reflexivity; try assumption.
  destruct (_ >=? _); [|lia].
  apply to_uint32_small. unfold ONE_SECOND in *. lia.
Qed.

Lemma noaccel_move_inv_step (p0 tgt t : Z) (s : kissStepper) :
  is_int32 tgt -> move_inv p0 tgt s ->
  move_inv p0 tgt (kissStepperNoAccel.move t s).
Proof.
  intros Htgt. unfold move_inv.
  destruct s as [fl rl ms ac en fw st ps dm dt da dr siw si cm mssi lst pu].
  simpl_fields.
  destruct st; intros Hinv; noaccel_cases; simpl_fields; try exact Hinv.
  destruct Hinv as (Hp & Hf & Hd & Hnz); subst ps fw.
  assert (Hm : to_uint32 (dm + 1) = dt) by congruence.
  rewrite Hm, Hd; destruct (Z.gtb_spec tgt p0);
    [apply final_pos_forwards | apply final_pos_backwards]; exact Htgt.
Qed.

Lemma noaccel_move_inv_run (p0 tgt : Z) (times : list Z) (s : kissStepper) :
  is_int32 tgt -> move_inv p0 tgt s ->
  move_inv p0 tgt (run_moves_noaccel times s).
Proof.
  intros Htgt. revert s.
  induction times as [|t ts IH]; intros s Hinv; cbn [run_moves_noaccel].
  - exact Hinv.
  - apply IH. apply noaccel_move_inv_step; assumption.
Qed.

Lemma noaccel_inv_move (t : Z) (s : kissStepper) :
  is_uint32 t -> noaccel_inv s -> noaccel_inv (kissStepperNoAccel.move t s).
Proof.
  intros Ht. unfold noaccel_inv.
  destruct s as [fl rl ms ac en fw st ps dm dt da dr siw si cm mssi lst pu].
  simpl_fields.
  intros ((Hdm & Hdt & Hsiw & Hlst) & Hst).
  pose proof (to_uint32_range (lst + siw)) as Hl.
  assert (Hinc : dm < dt -> to_uint32 (dm + 1) = dm + 1).
  { intros Hlt. apply to_uint32_small. unfold is_uint32 in *. lia. }
  destruct st; noaccel_cases; simpl_fields; unfold is_uint32 in *;
    try (rewrite Hinc in * by lia);
    repeat match goal with |- _ /\ _ => split end; intros; lia.
Qed.

Lemma noaccel_remaining_due_move (s : kissStepper) :
  noaccel_inv s ->
  remaining (kissStepperNoAccel.move (due s) s) <= Z.max 0 (remaining s - 1).
Proof.
  unfold noaccel_inv, remaining, due.
  destruct s as [fl rl ms ac en fw st ps dm dt da dr siw si cm mssi lst pu].
  simpl_fields.
  intros ((Hdm & Hdt & Hsiw & Hlst) & Hst).
  unfold is_uint32 in *.
  assert (Hdue : to_uint32 (to_uint32 (lst + siw) - lst) = siw).
  { unfold to_uint32. clear - Hsiw Hlst. lia. }
  assert (Hinc : dm < dt -> to_uint32 (dm + 1) = dm + 1).
  { intros Hlt. apply to_uint32_small. lia. }
  destruct st; try contradiction; unfold_noaccel; try rewrite Hdue;
    try (destruct (Z.geb_spec siw siw); [|lia]);
    repeat (split_test; simpl_fields);
    simpl_fields; try (rewrite Hinc in * by lia); lia.
Qed.

Lemma noaccel_due_times_stop (n : nat) (s : kissStepper) :
  noaccel_inv s -> remaining s <= Z.of_nat n ->
  m_kissState (run_moves_noaccel (due_times_noaccel n s) s) = STATE_STOPPED.
Proof.
  revert s. induction n as [|n IH]; intros s Hinv Hr;
    cbn [due_times_noaccel run_moves_noaccel].
  - unfold noaccel_inv, remaining, is_uint32 in *.
    destruct Hinv as (Ha & Hst).
    destruct (m_kissState s); try reflexivity; exfalso; lia.
  - apply IH.
    + apply noaccel_inv_move; [apply to_uint32_range | exact Hinv].
    + pose proof (noaccel_remaining_due_move s Hinv). lia.
Qed.

Lemma due_times_noaccel_uint32 (n : nat) (s : kissStepper) :
  Forall is_uint32 (due_times_noaccel n s).
Proof.
  revert s. induction n as [|n IH]; intros s; cbn [due_times_noaccel]; constructor.
  - apply to_uint32_range.
  - apply IH.
Qed.

Lemma noaccel_inv_prepareMove (s s1 : kissStepper) (target : Z) :
  wf s -> noaccel_inv s ->
  kissStepperNoAccel.prepareMove target s = (true, s1) -> noaccel_inv s1.
Proof.
  intros Hwf Hinv Hprep.
  pose proof (noaccel_prepareMove_plan _ _ _ Hprep)
    as ((Hstop & Hne & Hms) & _ & _ & _ & Hst & _ & Hdm & Hdt & Hw & Hl & _).
  pose proof (plannedDistance_nonzero target s Hwf Hne) as [_ HD].
  pose proof (div_ONE_SECOND_range _ Hms) as Hq.
  unfold noaccel_inv in *. rewrite Hstop in Hinv.
  destruct Hinv as ((Hm & Ht & Hsiw & Hlst) & Hm0).
  rewrite Hst, Hdm, Hdt, Hw, Hl, Hm0. unfold is_uint32, ONE_SECOND in *.
  destruct (_ >=? _); repeat match goal with |- _ /\ _ => split end; lia.
Qed.

(** X1: for the controller without acceleration, after a successful
    [prepareMove target], whatever the clock values at which [move] is
    called, once the state is Stopped the position is the target clamped to
    the limits; and from a state in which the controller keeps its
    invariant some sequence of calls of [move] does end in Stopped. *)
Theorem X1_noaccel_position_after_move (s s1 : kissStepper) (target : Z) :
  wf s ->
  kissStepperNoAccel.prepareMove target s = (true, s1) ->
  (forall times : list Z,
     m_kissState (run_moves_noaccel times s1) = STATE_STOPPED ->
     m_pos (run_moves_noaccel times s1) =
       constrain target (m_reverseLimit s) (m_forwardLimit s)) /\
  (noaccel_inv s ->
   exists times : list Z,
     Forall is_uint32 times /\
     m_kissState (run_moves_noaccel times s1) = STATE_STOPPED).
Proof.
  intros Hwf Hprep.
  pose proof (noaccel_prepareMove_plan _ _ _ Hprep)
    as ((_ & Hne & _) & _ & _ & Hfw & Hst & Hpos & _ & Hdt & _).
  split.
  - intros times Hstop.
    pose proof (plannedDistance_nonzero target s Hwf Hne) as [_ Hnz].
    assert (Htgt : is_int32 (constrain target (m_reverseLimit s) (m_forwardLimit s))).
    { destruct Hwf. apply constrain_limits_int32; assumption. }
    assert (Hinv : move_inv (m_pos s)
                     (constrain target (m_reverseLimit s) (m_forwardLimit s)) s1).
    { unfold move_inv. rewrite Hst, Hpos, Hfw, Hdt.
      repeat split; try reflexivity. lia. }
    pose proof (noaccel_move_inv_run _ _ times s1 Htgt Hinv) as Hend.
    unfold move_inv in Hend. rewrite Hstop in Hend. exact Hend.
  - intros Hinv.
    pose proof (noaccel_inv_prepareMove s s1 target Hwf Hinv Hprep) as Hinv1.
    assert (Hn : 0 <= remaining s1).
    { unfold noaccel_inv, remaining, is_uint32 in *.
      destruct Hinv1 as (Ha & Hs). destruct (m_kissState s1); lia. }
    exists (due_times_noaccel (Z.to_nat (remaining s1)) s1).
    split; [apply due_times_noaccel_uint32|].
    apply noaccel_due_times_stop; [exact Hinv1 | lia].
Qed.

(** Four steps backwards at 1000 steps per second. *)
Lemma X1_noaccel_position_after_move_witness :
  let s := init 2147483647 (-2147483648) 1000 0 in
  let times := [7; 1007; 2007; 3007; 4007] in
  m_kissState (run_moves_noaccel times (snd (kissStepperNoAccel.prepareMove (-4) s)))
    = STATE_STOPPED /\
  m_pos (run_moves_noaccel times (snd (kissStepperNoAccel.prepareMove (-4) s))) = -4.
Proof.
  intros s times.
  assert (Hwf : wf s) by (split; by_compute).
  destruct (X1_noaccel_position_after_move s
              (snd (kissStepperNoAccel.prepareMove (-4) s)) (-4) Hwf eq_refl)
    as [Hpos _].
  split; [reflexivity | exact (Hpos times eq_refl)].
Defined.

(** * Pulses and position *)

Lemma track_inv_move (p0 n0 tgt t : Z) (s : kissStepper) :
  is_int32 p0 -> is_int32 tgt ->
  phase_inv s -> track_inv p0 n0 tgt s -> track_inv p0 n0 tgt (move t s).
Proof.
  intros Hp0 Htgt. unfold phase_inv, track_inv.
  destruct s as [fl rl ms ac en fw st ps dm dt da dr siw si cm mssi lst pu].
  simpl_fields.
  intros ((Hdm & Hdt & _) & (Hda & Hdr) & Hst) Htr.
  assert (Hinc : dm < dt -> to_uint32 (dm + 1) = dm + 1).
  { intros Hlt. apply to_uint32_small. unfold is_uint32 in *. lia. }
  assert (Hfin : dm + 1 = Z.abs (tgt - p0) ->
                 (if tgt >? p0 then to_int32 (p0 + (dm + 1))
                  else to_int32 (p0 - (dm + 1))) = tgt).
  { intros E. unfold is_int32 in *.
    destruct (Z.gtb_spec tgt p0); rewrite to_int32_small by lia; lia. }
  unfold is_uint32 in *.
  destruct st; op_cases; simpl_fields;
    try exact Htr;
    try (rewrite Hinc in * by lia);
    try (destruct Htr as (Hp & Hf & Hpu & Hd); subst ps fw;
         repeat match goal with |- _ /\ _ => split end;
         first [ reflexivity | lia | apply Hfin; lia ]).
Qed.

Lemma track_inv_run (p0 n0 tgt : Z) (times : list Z) (s : kissStepper) :
  is_int32 p0 -> is_int32 tgt -> Forall is_uint32 times ->
  phase_inv s -> track_inv p0 n0 tgt s ->
  phase_inv (run_moves times s) /\ track_inv p0 n0 tgt (run_moves times s).
Proof.
  intros Hp0 Htgt Htimes. revert s.
  induction Htimes as [|t ts Ht _ IH]; intros s Hph Htr; cbn [run_moves].
  - split; assumption.
  - apply IH.
    + apply phase_inv_move; assumption.
    + apply track_inv_move; assumption.
Qed.

(** X2: during a move of the accelerating controller, driven by [move]
    alone, the pulses emitted so far never exceed the distance to the
    clamped target; when the move has ended they are exactly that distance;
    and [stop] at any moment leaves the position at the start plus (or
    minus, when moving in reverse) the pulses emitted, so never past the
    target. *)
Theorem X2_pulses_track_position (s s1 : kissStepper) (target : Z) (times : list Z) :
  wf s -> phase_inv s ->
  prepareMove target s = (true, s1) ->
  Forall is_uint32 times ->
  let tgt := constrain target (m_reverseLimit s) (m_forwardLimit s) in
  let k := pulses (run_moves times s1) - pulses s in
  0 <= k <= Z.abs (tgt - m_pos s) /\
  (m_kissState (run_moves times s1) = STATE_STOPPED -> k = Z.abs (tgt - m_pos s)) /\
  m_pos (stop (run_moves times s1)) =
    (if tgt >? m_pos s then m_pos s + k else m_pos s - k).
Proof.
  intros Hwf Hph Hprep Htimes tgt k.
  pose proof (prepareMove_true _ _ _ Hprep) as (Hstop & Hne & _).
  pose proof (prepareMove_plan _ _ _ Hprep)
    as (_ & _ & _ & _ & _ & Hfw & Hst & Hpos & Hdm & Hdt & _ & Hpu).
  pose proof (plannedDistance_nonzero target s Hwf Hne) as [HD HDr].
  pose proof (phase_inv_prepareMove target s Hwf Hph) as Hph1.
  rewrite Hprep in Hph1. cbn [snd] in Hph1.
  assert (Hp0 : is_int32 (m_pos s)) by (destruct Hwf; assumption).
  assert (Htgt : is_int32 tgt).
  { destruct Hwf. apply constrain_limits_int32; assumption. }
  assert (Hm0 : m_distMoved s = 0).
  { unfold phase_inv in Hph. rewrite Hstop in Hph. tauto. }
  fold tgt in HD, Hfw.
  assert (Htr : track_inv (m_pos s) (pulses s) tgt s1).
  { unfold track_inv. rewrite Hst, Hpos, Hfw, Hpu, Hdm, Hdt, Hm0, HD.
    repeat split; try reflexivity. lia. }
  destruct (track_inv_run _ _ _ times s1 Hp0 Htgt Htimes Hph1 Htr) as [Hph2 Htr2].
  subst k. revert Hph2 Htr2. generalize (run_moves times s1). intros s2.
  unfold phase_inv, track_inv, is_uint32, is_int32 in *.
  destruct s2 as [fl rl ms ac en fw st ps dm dt da dr siw si cm mssi lst pu].
  unfold_ops. clear Hprep Hph Hph1 Htr.
  intros ((Hdm2 & Hdt2 & _) & (Hda & Hdr) & Hst2) Htr2.
  destruct st.
  1: { destruct Htr2 as (Hp & Hpu2 & Hd). subst ps dm.
       destruct fw;
         rewrite ?Z.add_0_r, ?Z.sub_0_r, to_int32_small by (unfold is_int32; lia);
         repeat split; try lia; destruct (Z.gtb_spec tgt (m_pos s)); lia. }
  all: destruct Htr2 as (Hp & Hf & Hpu2 & Hd); subst ps fw;
    repeat split; try lia; try discriminate;
    destruct (Z.gtb_spec tgt (m_pos s)); rewrite to_int32_small by lia; lia.
Qed.

(** Two pulses into a move of 3 steps, [stop] leaves the controller at 2. *)
Lemma X2_pulses_track_position_witness :
  let s := init 2147483647 (-2147483648) 1000 2 in
  let s2 := run_moves [0; 500000; 1250000] (snd (prepareMove 3 s)) in
  0 <= pulses s2 - pulses s <= Z.abs (3 - 0) /\
  m_pos (stop s2) = 0 + (pulses s2 - pulses s).
Proof.
  intros s s2.
  assert (Hwf : wf s) by (split; by_compute).
  assert (Hph : phase_inv s) by by_compute.
  assert (Ht : Forall is_uint32 [0; 500000; 1250000])
    by (repeat constructor; by_compute).
  destruct (X2_pulses_track_position s (snd (prepareMove 3 s)) 3
              [0; 500000; 1250000] Hwf Hph eq_refl Ht) as (Hk & _ & Hpos).
  split; [exact Hk | exact Hpos].
Defined.

(** * Pulses and the clock *)

Ltac moving_goal :=
  unfold is_moving in *;
  repeat match goal with
         | |- _ /\ _ => split
         | |- _ <-> _ => split
         | |- _ -> _ => intro
         | H : _ /\ _ |- _ => destruct H
         | H : _ \/ _ |- _ => destruct H
         end;
  try congruence; try lia;
  first [ reflexivity | left; reflexivity | right; reflexivity
        | left; lia | right; lia
        | right; left; reflexivity | right; right; reflexivity ].

(** X3: a call of [move] emits at most one pulse; it emits one exactly when
    the controller is in a moving phase and the time elapsed since the last
    pulse, modulo 2^32, has reached the whole interval; then the time of the
    last pulse advances by the whole interval, whatever the clock value; and
    a call in a moving phase that emits no pulse changes nothing.  For the
    controller without acceleration the moving phase is Cruising. *)
Theorem X3_pulse_iff_due (t : Z) (s : kissStepper) :
  (pulses (move t s) = pulses s \/ pulses (move t s) = pulses s + 1) /\
  (pulses (move t s) = pulses s + 1 <->
     is_moving (m_kissState s) /\
     m_stepIntervalWhole s <= to_uint32 (t - m_lastStepTime s)) /\
  (pulses (move t s) = pulses s + 1 ->
     m_lastStepTime (move t s) =
       to_uint32 (m_lastStepTime s + m_stepIntervalWhole s)) /\
  (is_moving (m_kissState s) -> pulses (move t s) = pulses s -> move t s = s) /\
  (pulses (kissStepperNoAccel.move t s) = pulses s + 1 <->
     m_kissState s = STATE_RUN /\
     m_stepIntervalWhole s <= to_uint32 (t - m_lastStepTime s)) /\
  (pulses (kissStepperNoAccel.move t s) = pulses s + 1 ->
     m_lastStepTime (kissStepperNoAccel.move t s) =
       to_uint32 (m_lastStepTime s + m_stepIntervalWhole s)) /\
  (m_kissState s = STATE_RUN ->
   pulses (kissStepperNoAccel.move t s) = pulses s ->
   kissStepperNoAccel.move t s = s).
Proof.
  destruct s as [fl rl ms ac en fw st ps dm dt da dr siw si cm mssi lst pu].
  simpl_fields.
  destruct st; op_cases; noaccel_cases; simpl_fields; moving_goal.
Qed.

(** The comparison of times works across the wrap of the 32-bit clock: with
    the last pulse 100 microseconds before the wrap and an interval of 1000,
    a call at clock value 899 emits nothing and a call at 900 emits the
    pulse. *)
Example pulse_across_clock_wrap :
  let s := set_lastStepTime (2 ^ 32 - 100)
             (kissStepperNoAccel.move 0
                (snd (kissStepperNoAccel.prepareMove 10
                        (init 2147483647 (-2147483648) 1000 0)))) in
  kissStepperNoAccel.move 899 s = s /\
  pulses (kissStepperNoAccel.move 900 s) = pulses s + 1 /\
  m_lastStepTime (kissStepperNoAccel.move 900 s) = 900 /\
  move 899 s = s /\ pulses (move 900 s) = pulses s + 1.
Proof. by_compute. Qed.

(** X4: the controller without acceleration catches up after a late call:
    while it is Cruising, if two whole intervals have elapsed since the last
    pulse and the move does not end with the next pulse, two calls of [move]
    at the same clock value emit two pulses, and the time of the last pulse
    has advanced by two intervals. *)
Theorem X4_noaccel_late_calls_catch_up (t : Z) (s : kissStepper) :
  m_kissState s = STATE_RUN ->
  0 <= m_stepIntervalWhole s ->
  2 * m_stepIntervalWhole s <= to_uint32 (t - m_lastStepTime s) ->
  to_uint32 (m_distMoved s + 1) <> m_distTotal s ->
  pulses (kissStepperNoAccel.move t (kissStepperNoAccel.move t s)) = pulses s + 2 /\
  m_lastStepTime (kissStepperNoAccel.move t (kissStepperNoAccel.move t s)) =
    to_uint32 (m_lastStepTime s + 2 * m_stepIntervalWhole s).
Proof.
  destruct s as [fl rl ms ac en fw st ps dm dt da dr siw si cm mssi lst pu].
  simpl_fields. intros Hst Hw Hlate Hne. subst st.
  assert (H1 : siw <= to_uint32 (t - lst)) by lia.
  assert (H2 : siw <= to_uint32 (t - to_uint32 (lst + siw))).
  { unfold to_uint32 in *. clear - Hw Hlate. lia. }
  assert (H3 : to_uint32 (to_uint32 (lst + siw) + siw) = to_uint32 (lst + 2 * siw)).
  { unfold to_uint32. clear. lia. }
  noaccel_cases; simpl_fields; try lia; try contradiction;
    (split; [lia | exact H3]).
Qed.

(** A call 2500 microseconds after the last pulse, at 1000 microseconds per
    step. *)
Lemma X4_noaccel_late_calls_catch_up_witness :
  let s := kissStepperNoAccel.move 0
             (snd (kissStepperNoAccel.prepareMove 10
                     (init 2147483647 (-2147483648) 1000 0))) in
  pulses (kissStepperNoAccel.move 2500 (kissStepperNoAccel.move 2500 s)) = 2 /\
  m_lastStepTime (kissStepperNoAccel.move 2500 (kissStepperNoAccel.move 2500 s)) = 2000.
Proof.
  intro s.
  apply (X4_noaccel_late_calls_catch_up 2500 s); by_compute.
Defined.

(** * The order of the phases *)

Lemma phase_rank_op (o : op) (s : kissStepper) :
  phase_rank (m_kissState s) <= phase_rank (m_kissState (apply_op o s)).
Proof.
  destruct s as [fl rl ms ac en fw st ps dm dt da dr siw si cm mssi lst pu].
  destruct o; cbn [apply_op]; destruct st; op_cases; simpl_fields;
    cbn [phase_rank]; lia.
Qed.

Lemma phase_rank_noaccel_move (t : Z) (s : kissStepper) :
  phase_rank (m_kissState s) <=
  phase_rank (m_kissState (kissStepperNoAccel.move t s)).
Proof.
  destruct s as [fl rl ms ac en fw st ps dm dt da dr siw si cm mssi lst pu].
  destruct st; noaccel_cases; simpl_fields; cbn [phase_rank]; lia.
Qed.

(** X5: no operation of a move takes the controller back to an earlier
    phase: along any sequence of [move], [decelerate], [stop], [enable] and
    [disable] the state only advances in the order Starting, Accelerating,
    Cruising, Decelerating, Stopped; so Stopped is left by none of them, and
    only [prepareMove] starts a move.  The same holds for [move] of the
    controller without acceleration. *)
Theorem X5_phases_only_advance (s : kissStepper) :
  (forall ops : list op,
     phase_rank (m_kissState s) <= phase_rank (m_kissState (run_ops ops s))) /\
  (forall times : list Z,
     phase_rank (m_kissState s) <=
     phase_rank (m_kissState (run_moves_noaccel times s))) /\
  (m_kissState s = STATE_STOPPED ->
   forall ops : list op, m_kissState (run_ops ops s) = STATE_STOPPED).
Proof.
  assert (Hops : forall (ops : list op) (s0 : kissStepper),
             phase_rank (m_kissState s0) <=
             phase_rank (m_kissState (run_ops ops s0))).
  { induction ops as [|o os IH]; intros s0; cbn [run_ops]; [lia|].
    pose proof (phase_rank_op o s0). pose proof (IH (apply_op o s0)). lia. }
  split; [intros ops; apply Hops|]. split.
  - intros times. revert s.
    induction times as [|t ts IH]; intros s; cbn [run_moves_noaccel]; [lia|].
    pose proof (phase_rank_noaccel_move t s).
    pose proof (IH (kissStepperNoAccel.move t s)). lia.
  - intros Hst ops. pose proof (Hops ops s) as H. rewrite Hst in H.
    destruct (m_kissState (run_ops ops s)); cbn [phase_rank] in H;
      try reflexivity; lia.
Qed.

(** A Stopped controller stays Stopped under calls of [move] and
    [decelerate]. *)
Lemma X5_phases_only_advance_witness :
  m_kissState
    (run_ops [OpMove 5; OpDecelerate; OpMove 900]
       (init 2147483647 (-2147483648) 1000 2000)) = STATE_STOPPED.
Proof.
  destruct (X5_phases_only_advance (init 2147483647 (-2147483648) 1000 2000))
    as (_ & _ & H).
  apply H. reflexivity.
Defined.

(** * The planned profile *)

(** X7: in the profile planned with a nonzero acceleration the ramp up is
    never longer than [calcMaxAccelDist] nor than half the move, the cruise
    phase has a distance of zero or more, and the ramp down is exactly as
    long as the ramp up, except in a triangular profile of odd length, where
    it is one step longer. *)
Theorem X7_profile_symmetric (s s1 : kissStepper) (target : Z) :
  wf s ->
  m_accel s <> 0 ->
  prepareMove target s = (true, s1) ->
  let up := m_distAccel s1 in
  let down := m_distTotal s1 - m_distRun s1 in
  0 <= up <= calcMaxAccelDist s /\
  2 * up <= m_distTotal s1 /\
  up <= m_distRun s1 <= m_distTotal s1 /\
  (down = up \/ (down = up + 1 /\ m_distRun s1 = up /\ Z.odd (m_distTotal s1) = true)).
Proof.
  intros Hwf Hac Hprep up down.
  pose proof (prepareMove_true _ _ _ Hprep) as (_ & Hne & _).
  pose proof (prepareMove_plan _ _ _ Hprep)
    as (_ & _ & _ & _ & _ & _ & _ & _ & _ & Hdt & _ & _).
  pose proof (prepareMove_plan_accel _ _ _ Hprep Hac) as (Hda & Hdr & _).
  pose proof (plannedDistance_nonzero target s Hwf Hne) as [_ HD].
  pose proof (to_uint32_range (m_maxSpeed s * m_maxSpeed s / (2 * m_accel s))) as HA.
  fold (calcMaxAccelDist s) in HA.
  subst up down. rewrite Hda, Hdr, Hdt.
  revert HD HA. generalize (plannedDistance target s) (calcMaxAccelDist s).
  intros D A HD HA. clear - HD HA.
  destruct (Z.geb_spec A (D / 2)).
  - repeat match goal with |- _ /\ _ => split end; try lia.
    destruct (Z.eq_dec D (2 * (D / 2))) as [He | Ho]; [left; lia | right].
    repeat split; try lia. apply Z.odd_spec. exists (D / 2). lia.
  - rewrite to_uint32_small by lia.
    repeat match goal with |- _ /\ _ => split end; try lia.
Qed.

(** A triangular profile of 7 steps: 3 up, 4 down. *)
Lemma X7_profile_symmetric_witness :
  let s := init 2147483647 (-2147483648) 1000 2000 in
  let s1 := snd (prepareMove 7 s) in
  2 * m_distAccel s1 <= m_distTotal s1 /\
  m_distAccel s1 <= m_distRun s1 <= m_distTotal s1.
Proof.
  intros s s1.
  assert (Hwf : wf s) by (split; by_compute).
  assert (Hac : m_accel s <> 0) by by_compute.
  destruct (X7_profile_symmetric s s1 7 Hwf Hac eq_refl) as (_ & H2 & H3 & _).
  split; [exact H2 | exact H3].
Defined.

(** * [stop], [disable] and the configuration *)

Lemma to_int32_idem (x : Z) : to_int32 (to_int32 x) = to_int32 x.
Proof. unfold to_int32. lia. Qed.

(** X8: [stop] is idempotent, for either controller, and after [stop] the
    calls [move] and [decelerate] change nothing; [disable] after [stop]
    only clears the enabled flag, and [stop] after [disable] changes
    nothing. *)
Theorem X8_stop_absorbing (t : Z) (s : kissStepper) :
  stop (stop s) = stop s /\
  move t (stop s) = stop s /\
  decelerate (stop s) = stop s /\
  disable (stop s) = set_enabled false (stop s) /\
  stop (disable s) = disable s /\
  kissStepperNoAccel.stop (kissStepperNoAccel.stop s) = kissStepperNoAccel.stop s /\
  kissStepperNoAccel.move t (kissStepperNoAccel.stop s) = kissStepperNoAccel.stop s.
Proof.
  destruct s as [fl rl ms ac en fw st ps dm dt da dr siw si cm mssi lst pu].
  unfold_ops. unfold_noaccel.
  rewrite !Z.add_0_r, !Z.sub_0_r.
  destruct fw; rewrite !to_int32_idem; repeat split; reflexivity.
Qed.

Lemma same_config_refl (s : kissStepper) : same_config s s.
Proof. unfold same_config. repeat split; reflexivity. Qed.

Lemma same_config_trans (a b c : kissStepper) :
  same_config a b -> same_config b c -> same_config a c.
Proof.
  unfold same_config. intros (H1 & H2 & H3 & H4) (H5 & H6 & H7 & H8).
  repeat split; congruence.
Qed.

Lemma same_config_op (o : op) (s : kissStepper) : same_config (apply_op o s) s.
Proof.
  unfold same_config.
  destruct s as [fl rl ms ac en fw st ps dm dt da dr siw si cm mssi lst pu].
  destruct o; cbn [apply_op]; destruct st; op_cases; simpl_fields;
    repeat split; reflexivity.
Qed.

Lemma same_config_run_ops (ops : list op) (s : kissStepper) :
  same_config (run_ops ops s) s.
Proof.
  revert s. induction ops as [|o os IH]; intros s; cbn [run_ops].
  - apply same_config_refl.
  - apply same_config_trans with (apply_op o s); [apply IH | apply same_config_op].
Qed.

Lemma run_moves_run_ops (times : list Z) (s : kissStepper) :
  run_moves times s = run_ops (map OpMove times) s.
Proof.
  revert s. induction times as [|t ts IH]; intros s; cbn [run_moves map run_ops].
  - reflexivity.
  - apply IH.
Qed.

Lemma same_config_prepareMove (target : Z) (s : kissStepper) :
  same_config (snd (prepareMove target s)) s.
Proof.
  destruct (prepareMove target s) as [[|] s1] eqn:Hprep; cbn [snd].
  - pose proof (prepareMove_plan _ _ _ Hprep) as (H1 & H2 & H3 & H4 & _).
    unfold same_config. auto.
  - apply prepareMove_false in Hprep. subst s1. apply same_config_refl.
Qed.

Lemma same_config_noaccel_move (t : Z) (s : kissStepper) :
  same_config (kissStepperNoAccel.move t s) s.
Proof.
  unfold same_config.
  destruct s as [fl rl ms ac en fw st ps dm dt da dr siw si cm mssi lst pu].
  destruct st; noaccel_cases; simpl_fields; repeat split; reflexivity.
Qed.

(** X13: no operation assigns the configuration: the limits, the maximum
    speed and the acceleration are the same after any sequence of [move],
    [decelerate], [stop], [enable] and [disable], after [prepareMove] of
    either controller whether it succeeds or not, and after any calls of
    [move] of the controller without acceleration. *)
Theorem X13_configuration_unchanged (s : kissStepper) (target : Z)
    (ops : list op) (times : list Z) :
  same_config (run_ops ops s) s /\
  same_config (snd (prepareMove target s)) s /\
  same_config (snd (kissStepperNoAccel.prepareMove target s)) s /\
  same_config (run_moves_noaccel times s) s.
Proof.
  split; [apply same_config_run_ops|].
  split; [apply same_config_prepareMove|]. split.
  - rewrite noaccel_prepareMove_eq. cbv zeta.
    destruct (state_eqb _ _); [|apply same_config_refl].
    destruct (negb _ && _); [|apply same_config_refl].
    unfold same_config. cbn [snd]. simpl_fields. repeat split; reflexivity.
  - revert s. induction times as [|t ts IH]; intros s; cbn [run_moves_noaccel].
    + apply same_config_refl.
    + apply same_config_trans with (kissStepperNoAccel.move t s);
        [apply IH | apply same_config_noaccel_move].
Qed.

(** X14: in a moving phase, [decelerate] never postpones the end of the
    move: the new total distance is at most the old one; with a positive
    acceleration it is at least the distance already moved, the controller
    is Decelerating, and neither the position, the pulses counted, the
    pulses emitted nor the interval change. *)
Theorem X14_decelerate_never_extends (s : kissStepper) :
  phase_inv s ->
  is_moving (m_kissState s) ->
  m_distTotal (decelerate s) <= m_distTotal s /\
  (m_accel s > 0 ->
     m_distMoved s <= m_distTotal (decelerate s) /\
     m_kissState (decelerate s) = STATE_DECEL /\
     m_pos (decelerate s) = m_pos s /\
     m_distMoved (decelerate s) = m_distMoved s /\
     pulses (decelerate s) = pulses s /\
     m_stepInterval (decelerate s) = m_stepInterval s /\
     m_stepIntervalWhole (decelerate s) = m_stepIntervalWhole s /\
     m_lastStepTime (decelerate s) = m_lastStepTime s).
Proof.
  intros Hinv Hmv.
  pose proof (calcDecelDist_range s) as Hc.
  unfold decelerate. rewrite (proj2 (state_gtb_starting _) Hmv).
  revert Hc. generalize (calcDecelDist s). intros c Hc.
  unfold phase_inv, is_moving, getDistRemaining, is_uint32 in *.
  destruct s as [fl rl ms ac en fw st ps dm dt da dr siw si cm mssi lst pu].
  simpl_fields.
  destruct Hinv as ((Hdm & Hdt & _) & (Hda & Hdr) & Hst).
  assert (Hlt : dm < dt).
  { destruct st; destruct Hmv as [E | [E | E]]; try discriminate; lia. }
  clear Hmv Hst.
  assert (Hrem : to_uint32 (dt - dm) = dt - dm) by (apply to_uint32_small; lia).
  rewrite Hrem.
  destruct (Z.gtb_spec ac 0).
  - destruct (Z.gtb_spec c (dt - dm)); simpl_fields;
      rewrite to_uint32_small by lia;
      repeat match goal with |- _ /\ _ => split | |- _ -> _ => intro end;
      try reflexivity; lia.
  - unfold_ops. split; [lia | intros; lia].
Qed.

(** After the second pulse of a ramp of 10 steps. *)
Lemma X14_decelerate_never_extends_witness :
  let s := run_moves [0; 500000; 750000]
             (snd (prepareMove 10 (init 2147483647 (-2147483648) 1000 2))) in
  m_distTotal (decelerate s) <= m_distTotal s /\
  m_distMoved s <= m_distTotal (decelerate s).
Proof.
  intro s.
  assert (Hinv : phase_inv s) by by_compute.
  assert (Hmv : is_moving (m_kissState s)) by (right; left; reflexivity).
  destruct (X14_decelerate_never_extends s Hinv Hmv) as (H1 & H2).
  split; [exact H1 | apply H2; reflexivity].
Defined.

(** * There and back *)

Lemma moves_end_at_target (s s1 : kissStepper) (target : Z) (times : list Z) :
  wf s ->
  prepareMove target s = (true, s1) ->
  m_kissState (run_moves times s1) = STATE_STOPPED ->
  m_pos (run_moves times s1) =
    constrain target (m_reverseLimit s) (m_forwardLimit s).
Proof.
  intros Hwf Hprep Hstop.
  pose proof (prepareMove_true _ _ _ Hprep) as (_ & Hne & _).
  pose proof (prepareMove_plan _ _ _ Hprep)
    as (_ & _ & _ & _ & _ & Hfw & Hst & Hpos & _ & Hdt & _ & _).
  pose proof (plannedDistance_nonzero target s Hwf Hne) as [_ Hnz].
  assert (Htgt : is_int32 (constrain target (m_reverseLimit s) (m_forwardLimit s))).
  { destruct Hwf. apply constrain_limits_int32; assumption. }
  assert (Hinv : move_inv (m_pos s)
                   (constrain target (m_reverseLimit s) (m_forwardLimit s)) s1).
  { unfold move_inv. rewrite Hst, Hpos, Hfw, Hdt.
    repeat split; try reflexivity. lia. }
  pose proof (move_inv_run _ _ times s1 Htgt Hinv) as Hend.
  unfold move_inv in Hend. rewrite Hstop in Hend. exact Hend.
Qed.

Lemma wf_run_moves (times : list Z) (s : kissStepper) :
  wf s -> wf (run_moves times s).
Proof.
  revert s. induction times as [|t ts IH]; intros s Hwf; cbn [run_moves].
  - exact Hwf.
  - apply IH, wf_move, Hwf.
Qed.

Lemma constrain_inside (amt low high : Z) :
  low <= amt <= high -> constrain amt low high = amt.
Proof.
  intros H. unfold constrain.
  destruct (Z.ltb_spec amt low); [lia|].
  destruct (Z.gtb_spec amt high); [lia | reflexivity].
Qed.

(** X9: a move and the move back compose to the identity on the position:
    from a position within the limits, once a move has ended, [prepareMove]
    to the starting position is accepted, and when that second move has
    ended the controller is where it started. *)
Theorem X9_there_and_back (s s1 : kissStepper) (target : Z) (times1 : list Z) :
  wf s ->
  m_reverseLimit s <= m_pos s <= m_forwardLimit s ->
  prepareMove target s = (true, s1) ->
  m_kissState (run_moves times1 s1) = STATE_STOPPED ->
  fst (prepareMove (m_pos s) (run_moves times1 s1)) = true /\
  forall times2 : list Z,
    m_kissState
      (run_moves times2 (snd (prepareMove (m_pos s) (run_moves times1 s1))))
      = STATE_STOPPED ->
    m_pos (run_moves times2 (snd (prepareMove (m_pos s) (run_moves times1 s1))))
      = m_pos s.
Proof.
  intros Hwf Hin Hprep Hstop.
  pose proof (prepareMove_true _ _ _ Hprep) as (_ & Hne & Hms).
  pose proof (moves_end_at_target s s1 target times1 Hwf Hprep Hstop) as Hpos2.
  assert (Hcfg : same_config (run_moves times1 s1) s).
  { apply same_config_trans with s1.
    - rewrite run_moves_run_ops. apply same_config_run_ops.
    - pose proof (same_config_prepareMove target s) as H.
      rewrite Hprep in H. exact H. }
  assert (Hwf2 : wf (run_moves times1 s1)).
  { apply wf_run_moves. pose proof (wf_prepareMove target s Hwf) as H.
    rewrite Hprep in H. exact H. }
  revert Hstop Hpos2 Hcfg Hwf2. generalize (run_moves times1 s1). intros s2.
  intros Hstop Hpos2 (Hf & Hr & Hm & Ha) Hwf2.
  assert (Hc : constrain (m_pos s) (m_reverseLimit s2) (m_forwardLimit s2) = m_pos s).
  { rewrite Hf, Hr. apply constrain_inside. exact Hin. }
  assert (Hacc : fst (prepareMove (m_pos s) s2) = true).
  { rewrite prepareMove_eq. cbv zeta. rewrite Hstop, Hc, Hm.
    cbn [state_eqb state_code Z.eqb Pos.eqb].
    destruct (Z.eqb_spec (m_pos s) (m_pos s2)); [congruence|].
    destruct (Z.gtb_spec (m_maxSpeed s) 0); [|lia].
    cbn [negb andb]. destruct (negb (m_accel s2 =? 0)); reflexivity. }
  split; [exact Hacc|].
  intros times2 Hstop2.
  destruct (prepareMove (m_pos s) s2) as [b s3] eqn:Hprep2.
  cbn [fst snd] in *. subst b.
  rewrite (moves_end_at_target s2 s3 (m_pos s) times2 Hwf2 Hprep2 Hstop2).
  exact Hc.
Qed.

(** Three steps forward and back. *)
Lemma X9_there_and_back_witness :
  let s := init 2147483647 (-2147483648) 1000 2 in
  let s2 := run_moves [0; 500000; 1250000; 2843750] (snd (prepareMove 3 s)) in
  fst (prepareMove 0 s2) = true /\
  m_pos (run_moves [0; 500000; 1250000; 2843750] (snd (prepareMove 0 s2))) = 0.
Proof.
  intros s s2.
  assert (Hwf : wf s) by (split; by_compute).
  assert (Hin : m_reverseLimit s <= m_pos s <= m_forwardLimit s) by by_compute.
  destruct (X9_there_and_back s (snd (prepareMove 3 s)) 3
              [0; 500000; 1250000; 2843750] Hwf Hin eq_refl eq_refl) as [Ha Hb].
  split; [exact Ha | exact (Hb [0; 500000; 1250000; 2843750] eq_refl)].
Defined.

(** * The interval without acceleration *)

(** X11: the whole interval of a move without acceleration, for either
    controller, is within half a microsecond (plus half a step of rounding
    slack) of the exact interval: twice the distance between
    [stepIntervalWhole * maxSpeed] and one second is at most
    [maxSpeed + 1]. *)
Theorem X11_noaccel_interval_error (s s1 : kissStepper) (target : Z) :
  kissStepperNoAccel.prepareMove target s = (true, s1) \/
  (m_accel s = 0 /\ prepareMove target s = (true, s1)) ->
  2 * Z.abs (m_stepIntervalWhole s1 * m_maxSpeed s - ONE_SECOND) <= m_maxSpeed s + 1.
Proof.
  intros H.
  assert (Hw : 0 < m_maxSpeed s /\
               m_stepIntervalWhole s1 =
                 ONE_SECOND / m_maxSpeed s +
                 (if ONE_SECOND mod m_maxSpeed s >=? m_maxSpeed s / 2 then 1 else 0)).
  { destruct H as [Hn | [Hac Hp]].
    - pose proof (noaccel_prepareMove_plan _ _ _ Hn) as ((_ & _ & Hms) & H).
      split; [exact Hms | tauto].
    - pose proof (prepareMove_true _ _ _ Hp) as (_ & _ & Hms).
      split; [exact Hms | apply (prepareMove_noaccel_interval s s1 target Hac Hp)]. }
  destruct Hw as [Hms Hw]. rewrite Hw. clear Hw H.
  pose proof (Z.div_mod ONE_SECOND (m_maxSpeed s) ltac:(lia)) as Hdm.
  pose proof (Z.mod_pos_bound ONE_SECOND (m_maxSpeed s) Hms) as Hr.
  revert Hdm Hr.
  generalize (ONE_SECOND / m_maxSpeed s) (ONE_SECOND mod m_maxSpeed s).
  revert Hms. generalize (m_maxSpeed s). unfold ONE_SECOND.
  intros ms Hms q r Hdm Hr.
  destruct (Z.geb_spec r (ms / 2)); nia.
Qed.

(** At 3 steps per second the interval 333334 is a third of a microsecond
    off. *)
Lemma X11_noaccel_interval_error_witness :
  let s := init 2147483647 (-2147483648) 3 0 in
  2 * Z.abs (m_stepIntervalWhole (snd (prepareMove 1 s)) * 3 - ONE_SECOND) <= 3 + 1.
Proof.
  intro s.
  apply (X11_noaccel_interval_error s (snd (prepareMove 1 s)) 1).
  right. split; reflexivity.
Defined.

(** * Reachable states *)

Lemma reachable_enabled_reachable (s : kissStepper) :
  reachable_enabled s -> reachable s.
Proof.
  induction 1.
  - apply reach_init; assumption.
  - apply reach_prepareMove; assumption.
  - apply reach_move; assumption.
  - apply reach_stop; assumption.
  - apply reach_enable; assumption.
Qed.

(** X12: every state reached from a fresh controller by [prepareMove],
    [move], [stop] and [enable] has its integer members within the ranges
    of their types: the limits and the position within [int32_t], the
    maximum speed and the acceleration within [uint16_t], and the four
    distances, the whole interval, the time of the last pulse and
    [maxSpeedStepInterval] within [uint32_t].  It satisfies the invariant of
    the profile; when Stopped, all four distances are zero; when Starting,
    no pulse is counted and the total is positive; in a moving phase the
    pulses counted are below the total. *)
Theorem X12_reachable_states_consistent (s : kissStepper) :
  reachable_enabled s ->
  wf s /\
  (is_uint32 (m_distMoved s) /\ is_uint32 (m_distTotal s) /\
   is_uint32 (m_distAccel s) /\ is_uint32 (m_distRun s) /\
   is_uint32 (m_stepIntervalWhole s) /\ is_uint32 (m_lastStepTime s) /\
   is_uint32 (m_maxSpeedStepInterval s)) /\
  profile_inv s /\
  (m_kissState s = STATE_STOPPED ->
     m_distMoved s = 0 /\ m_distTotal s = 0 /\
     m_distAccel s = 0 /\ m_distRun s = 0) /\
  (m_kissState s = STATE_STARTING -> m_distMoved s = 0 /\ 0 < m_distTotal s) /\
  (is_moving (m_kissState s) -> m_distMoved s < m_distTotal s).
Proof.
  intros Hreach.
  destruct (reachable_inv s (reachable_enabled_reachable s Hreach)) as [Hwf Hinv].
  split; [exact Hwf|].
  split.
  { unfold phase_inv, is_uint32 in Hinv |- *.
    destruct Hinv as ((H1 & H2 & H3 & H4 & H5) & (Ha & Hr) & _).
    repeat match goal with |- _ /\ _ => split end; lia. }
  split; [apply phase_inv_profile_inv, Hinv|].
  unfold phase_inv, is_moving, is_uint32 in Hinv |- *.
  destruct Hinv as (_ & (Ha & Hr) & Hst).
  destruct (m_kissState s); repeat split; intros;
    repeat match goal with
           | H : _ \/ _ |- _ => destruct H
           | H : _ = _ :> kissState_t |- _ => discriminate H
           end; lia.
Qed.

(** One call of [move] into a move of 10 steps. *)
Lemma X12_reachable_states_consistent_witness :
  let s := move 0 (snd (prepareMove 10 (init 2147483647 (-2147483648) 1000 2000))) in
  is_uint32 (m_distRun s) /\ profile_inv s /\ m_distMoved s < m_distTotal s.
Proof.
  intro s.
  assert (Hreach : reachable_enabled s).
  { apply reach_en_move; [by_compute|]. apply reach_en_prepareMove.
    apply reach_en_init; by_compute. }
  destruct (X12_reachable_states_consistent s Hreach)
    as (_ & (_ & _ & _ & Hr & _) & Hp & _ & _ & Hm).
  split; [exact Hr|]. split; [exact Hp | apply Hm; right; left; reflexivity].
Defined.

(** * Acceleration zero and the controller without acceleration *)

Lemma noaccel_sim_move (t : Z) (a n : kissStepper) :
  noaccel_sim a n -> noaccel_sim (move t a) (kissStepperNoAccel.move t n).
Proof.
  unfold noaccel_sim, base_agree.
  destruct a as [fl rl ms ac en fw st ps dm dt da dr siw si cm mssi lst pu].
  destruct n as [fl' rl' ms' ac' en' fw' st' ps' dm' dt' da' dr' siw' si' cm' mssi' lst' pu'].
  simpl_fields.
  intros ((? & ? & ? & ? & ? & ? & ? & ? & ? & ? & ? & ?) & Hda & Hdr & Hst).
  subst fl' rl' ms' en' fw' st' ps' dm' dt' siw' lst' pu' da dr.
  destruct st; try contradiction; unfold_ops; unfold_noaccel;
    repeat (split_test; unfold_ops; unfold_noaccel);
    try contradiction; try congruence;
    repeat match goal with |- _ /\ _ => split end;
    first [reflexivity | exact I | assumption | congruence].
Qed.

(** X10: with acceleration zero the accelerating controller behaves as the
    controller without acceleration: after an accepted [prepareMove], for
    every sequence of clock values the two controllers agree, call by call,
    on state, position, direction, pulses emitted, pulses counted, total
    distance, whole interval and time of the last pulse. *)
Theorem X10_accel_zero_is_noaccel (s : kissStepper) (target : Z) (times : list Z) :
  wf s ->
  m_accel s = 0 ->
  fst (prepareMove target s) = true ->
  fst (kissStepperNoAccel.prepareMove target s) = true /\
  base_agree (run_moves times (snd (prepareMove target s)))
             (run_moves_noaccel times (snd (kissStepperNoAccel.prepareMove target s))).
Proof.
  intros Hwf Hac Hacc.
  destruct (prepareMove target s) as [b a1] eqn:Hp. cbn [fst snd] in *. subst b.
  pose proof (prepareMove_true _ _ _ Hp) as (Hstop & Hne & Hms).
  assert (Hn : kissStepperNoAccel.prepareMove target s =
               (true, snd (kissStepperNoAccel.prepareMove target s))).
  { rewrite noaccel_prepareMove_eq. cbv zeta. rewrite Hstop.
    cbn [state_eqb state_code Z.eqb Pos.eqb].
    destruct (Z.eqb_spec (constrain target (m_reverseLimit s) (m_forwardLimit s))
                         (m_pos s)); [contradiction|].
    destruct (Z.gtb_spec (m_maxSpeed s) 0); [|lia]. reflexivity. }
  destruct (kissStepperNoAccel.prepareMove target s) as [b n1] eqn:Hpn.
  cbn [fst snd] in *. inversion Hn; subst b. clear Hn.
  split; [reflexivity|].
  assert (Hsim : noaccel_sim a1 n1).
  { pose proof (prepareMove_plan _ _ _ Hp)
      as (A1 & A2 & A3 & _ & A5 & A6 & A7 & A8 & A9 & A10 & A11 & A12).
    pose proof (prepareMove_plan_noaccel _ _ _ Hp Hac) as (B1 & B2 & _).
    pose proof (prepareMove_noaccel_interval _ _ _ Hac Hp) as Hw.
    pose proof (noaccel_prepareMove_plan _ _ _ Hpn)
      as (_ & (C1 & C2 & C3 & _) & C5 & C6 & C7 & C8 & C9 & C10 & C11 & C12 & C13).
    pose proof (plannedDistance_nonzero target s Hwf Hne) as [_ HD].
    unfold noaccel_sim, base_agree. rewrite A7.
    repeat match goal with |- _ /\ _ => split end; try congruence. lia. }
  clear Hp Hpn. revert a1 n1 Hsim.
  induction times as [|t ts IH]; intros a1 n1 Hsim;
    cbn [run_moves run_moves_noaccel].
  - destruct Hsim as [H _]. exact H.
  - apply IH. apply noaccel_sim_move. exact Hsim.
Qed.

(** Five steps at 1000 steps per second, on both controllers. *)
Lemma X10_accel_zero_is_noaccel_witness :
  let s := init 2147483647 (-2147483648) 1000 0 in
  let times := [0; 1000; 2500; 2600; 3000] in
  m_pos (run_moves times (snd (prepareMove 5 s))) =
  m_pos (run_moves_noaccel times (snd (kissStepperNoAccel.prepareMove 5 s))) /\
  pulses (run_moves times (snd (prepareMove 5 s))) =
  pulses (run_moves_noaccel times (snd (kissStepperNoAccel.prepareMove 5 s))).
Proof.
  intros s times.
  assert (Hwf : wf s) by (split; by_compute).
  destruct (X10_accel_zero_is_noaccel s 5 times Hwf eq_refl eq_refl)
    as (_ & H).
  unfold base_agree in H. tauto.
Defined.

(** * The soft limits *)

Lemma constrain_within (amt low high : Z) :
  low <= high -> low <= constrain amt low high <= high.
Proof.
  intros H. unfold constrain.
  destruct (Z.ltb_spec amt low); [lia|].
  destruct (Z.gtb_spec amt high); lia.
Qed.

Lemma limits_inv_stop (s : kissStepper) :
  wf s -> phase_inv s -> limits_inv s -> limits_inv (stop s).
Proof.
  intros [Hf Hr _ _ Hp]. unfold phase_inv, limits_inv, is_uint32, is_int32 in *.
  destruct s as [fl rl ms ac en fw st ps dm dt da dr siw si cm mssi lst pu].
  unfold_ops.
  intros ((Hdm & Hdt & _) & (Hda & Hdr) & Hst) (Hin & Hend).
  split; [|exact I].
  destruct st; destruct fw; rewrite to_int32_small by lia; lia.
Qed.

Lemma limits_inv_move (t : Z) (s : kissStepper) :
  wf s -> phase_inv s -> limits_inv s -> limits_inv (move t s).
Proof.
  intros [Hf Hr _ _ Hp]. unfold phase_inv, limits_inv, is_uint32, is_int32 in *.
  destruct s as [fl rl ms ac en fw st ps dm dt da dr siw si cm mssi lst pu].
  simpl_fields.
  intros ((Hdm & Hdt & _) & (Hda & Hdr) & Hst) (Hin & Hend).
  assert (Hinc : dm < dt -> to_uint32 (dm + 1) = dm + 1).
  { intros Hlt. apply to_uint32_small. lia. }
  destruct st; op_cases; simpl_fields;
    try (split; [exact Hin | exact Hend]);
    try (rewrite Hinc in * by lia);
    (split; [|exact I]); destruct fw; rewrite to_int32_small by lia; lia.
Qed.

Lemma limits_inv_prepareMove (target : Z) (s : kissStepper) :
  wf s -> m_reverseLimit s <= m_forwardLimit s ->
  limits_inv s -> limits_inv (snd (prepareMove target s)).
Proof.
  intros Hwf Hlim Hinv.
  destruct (prepareMove target s) as [[|] s1] eqn:Hprep; cbn [snd].
  2: { apply prepareMove_false in Hprep. subst s1. exact Hinv. }
  pose proof (prepareMove_true _ _ _ Hprep) as (_ & Hne & _).
  pose proof (prepareMove_plan _ _ _ Hprep)
    as (Hf & Hr & _ & _ & _ & Hfw & Hst & Hpos & _ & Hdt & _ & _).
  pose proof (plannedDistance_nonzero target s Hwf Hne) as [HD _].
  pose proof (constrain_within target _ _ Hlim) as Hc.
  unfold limits_inv in *. rewrite Hf, Hr, Hfw, Hst, Hpos, Hdt, HD.
  destruct Hinv as [Hin _]. split; [exact Hin|].
  destruct (Z.gtb_spec (constrain target (m_reverseLimit s) (m_forwardLimit s))
                       (m_pos s)); lia.
Qed.

Lemma reachable_limits_inv (s : kissStepper) :
  reachable s ->
  m_reverseLimit s <= 0 <= m_forwardLimit s ->
  limits_inv s.
Proof.
  induction 1 as [fl rl ms ac Hf Hr Hm Ha | target s Hre IH
                  | t s Ht Hre IH | s Hre IH | s Hre IH | s Hre IH]; intros Hlim.
  - unfold limits_inv. cbn in *. split; [lia | exact I].
  - destruct (reachable_inv s Hre) as [Hwf Hph].
    destruct (same_config_prepareMove target s) as (E1 & E2 & _).
    rewrite E1, E2 in Hlim.
    apply limits_inv_prepareMove; [exact Hwf | lia | apply IH; exact Hlim].
  - destruct (reachable_inv s Hre) as [Hwf Hph].
    destruct (same_config_op (OpMove t) s) as (E1 & E2 & _). cbn [apply_op] in *.
    rewrite E1, E2 in Hlim.
    apply limits_inv_move; [exact Hwf | exact Hph | apply IH; exact Hlim].
  - destruct (reachable_inv s Hre) as [Hwf Hph].
    destruct (same_config_op OpStop s) as (E1 & E2 & _). cbn [apply_op] in *.
    rewrite E1, E2 in Hlim.
    apply limits_inv_stop; [exact Hwf | exact Hph | apply IH; exact Hlim].
  - destruct s. apply IH. exact Hlim.
  - destruct (reachable_inv s Hre) as [Hwf Hph].
    destruct (same_config_op OpDisable s) as (E1 & E2 & _). cbn [apply_op] in *.
    rewrite E1, E2 in Hlim.
    pose proof (limits_inv_stop s Hwf Hph (IH Hlim)) as H.
    unfold disable. destruct (stop s). exact H.
Qed.

(** X15: the soft limits are never left: from a fresh controller whose
    limits enclose the initial position 0, after any sequence of
    [prepareMove], [move], [stop], [enable] and [disable] the position is
    within the limits, and so is the position that [stop] would commit at
    that moment. *)
Theorem X15_position_within_limits (s : kissStepper) :
  reachable s ->
  m_reverseLimit s <= 0 <= m_forwardLimit s ->
  m_reverseLimit s <= m_pos s <= m_forwardLimit s /\
  m_reverseLimit s <= m_pos (stop s) <= m_forwardLimit s.
Proof.
  intros Hre Hlim.
  pose proof (reachable_limits_inv s Hre Hlim) as Hinv.
  destruct (reachable_inv s Hre) as [Hwf Hph].
  split; [exact (proj1 Hinv)|].
  pose proof (limits_inv_stop s Hwf Hph Hinv) as [H _].
  destruct (same_config_op OpStop s) as (E1 & E2 & _). cbn [apply_op] in *.
  rewrite E1, E2 in H. exact H.
Qed.

(** A target beyond the forward limit 5, stopped after one pulse. *)
Lemma X15_position_within_limits_witness :
  let s := run_moves [0; 1000]
             (snd (prepareMove 100 (init 5 (-5) 1000 0))) in
  -5 <= m_pos (stop s) <= 5.
Proof.
  intro s.
  assert (Hreach : reachable s).
  { unfold s. cbn [run_moves].
    apply reach_move; [by_compute|]. apply reach_move; [by_compute|].
    apply reach_prepareMove. apply reach_init; by_compute. }
  assert (Hlim : m_reverseLimit s <= 0 <= m_forwardLimit s) by by_compute.
  exact (proj2 (X15_position_within_limits s Hreach Hlim)).
Defined.
